(** * Upstox master bot: market profile, quotes and ATM strike selection

    A shallow embedding of [main.py] (the analytics helpers of the polling
    bot) and the properties its specification states about them.

    Conventions of the embedding.
    - A Python number (JSON number, [float] or [int] used as a price or a
      volume) is a rational [Q]; arithmetic is exact, so binary floating
      point rounding, NaN and the infinities are outside the model.  Python
      compares numbers by value, which is [Qeq] here.
    - A Python [int] used as a strike or as a count is a [Z].
    - A [dict] is an association list in insertion order with distinct keys:
      [max], [sorted] and [items()] all iterate in that order.
    - Code that can raise returns a [result]. *)

From Stdlib Require Import ZArith QArith Qround Qabs List String Bool Lia Lqa.
From Stdlib Require Import Sorting.Sorted Sorting.Permutation.
Import ListNotations.

Set Implicit Arguments.

(* ================================================================== *)
(** ** Exceptions *)

Inductive exn : Type :=
| ZeroDivisionError
| AttributeError
| TypeError
| ValueError.

Inductive result (A : Type) : Type :=
| Ret (a : A)
| Raise (e : exn).

Arguments Ret {A} a.
Arguments Raise {A} e.

Definition bind {A B : Type} (m : result A) (k : A -> result B) : result B :=
  match m with
  | Ret a => k a
  | Raise e => Raise e
  end.

Notation "x <- m ;; k" := (bind m (fun x => k))
  (at level 61, m at next level, right associativity).

(* ================================================================== *)
(** ** Python numerics *)

Module Py.

Definition Qltb (a b : Q) : bool := negb (Qle_bool b a).

(** [round(x)] with one argument: nearest integer, a tie goes to the even
    neighbour. *)
Definition round (x : Q) : Z :=
  let f := Qfloor x in
  match (x - inject_Z f ?= 1 # 2)%Q with
  | Lt => f
  | Gt => (f + 1)%Z
  | Eq => if Z.even f then f else (f + 1)%Z
  end.

(** [int(x)] on a number: truncation toward zero. *)
Definition int (x : Q) : Z := Z.quot (Qnum x) (Zpos (Qden x)).

(** [a / b] on numbers. *)
Definition div (a b : Q) : result Q :=
  if Qeq_bool b 0 then Raise ZeroDivisionError else Ret (a / b)%Q.

(** [max(iterable, key=...)] and [min(iterable, key=...)]: the first element
    whose key is extremal; [ValueError] on an empty iterable. *)
Definition max_by {A : Type} (key : A -> Q) (l : list A) : result A :=
  match l with
  | [] => Raise ValueError
  | x :: rest =>
      Ret (fold_left (fun best y => if Qltb (key best) (key y) then y else best)
                     rest x)
  end.

Definition min_by {A : Type} (key : A -> Q) (l : list A) : result A :=
  match l with
  | [] => Raise ValueError
  | x :: rest =>
      Ret (fold_left (fun best y => if Qltb (key y) (key best) then y else best)
                     rest x)
  end.

Definition min_byZ {A : Type} (key : A -> Z) (l : list A) : result A :=
  match l with
  | [] => Raise ValueError
  | x :: rest =>
      Ret (fold_left (fun best y => if (key y <? key best)%Z then y else best)
                     rest x)
  end.

(** [l[start:stop]]: a negative bound counts from the end, and both bounds
    are clamped to the list. *)
Definition slice_bound (len i : Z) : Z :=
  if (i <? 0)%Z then Z.max 0 (i + len) else Z.min i len.

Definition slice {A : Type} (l : list A) (start stop : Z) : list A :=
  let len := Z.of_nat (List.length l) in
  let lo := slice_bound len start in
  let hi := slice_bound len stop in
  firstn (Z.to_nat (hi - lo)) (skipn (Z.to_nat lo) l).

End Py.

(* ================================================================== *)
(** ** Dictionaries *)

Section Dict.

Variables (K V : Type) (eqb : K -> K -> bool).

Fixpoint dict_get (d : list (K * V)) (k : K) : option V :=
  match d with
  | [] => None
  | (k', v) :: d' => if eqb k' k then Some v else dict_get d' k
  end.

(** [d.get(k, default)] *)
Definition dict_get_default (d : list (K * V)) (k : K) (default : V) : V :=
  match dict_get d k with
  | Some v => v
  | None => default
  end.

(** [d[k] = v]: an existing key keeps its place, a new one goes last. *)
Fixpoint dict_set (d : list (K * V)) (k : K) (v : V) : list (K * V) :=
  match d with
  | [] => [(k, v)]
  | (k', v') :: d' =>
      if eqb k' k then (k', v) :: d' else (k', v') :: dict_set d' k v
  end.

End Dict.

(* ================================================================== *)
(** ** ATM strike rounding *)

(** [int(round(price / 50.0) * 50)]: the divisor is a non-zero literal, and
    [round] already yields an [int], so the outer [int] is the identity. *)
Definition round_nifty_strike (price : Q) : Z :=
  (Py.round (price / 50%Q) * 50)%Z.

Definition round_banknifty_strike (price : Q) : Z :=
  (Py.round (price / 100%Q) * 100)%Z.

(* ================================================================== *)
(** ** Market profile *)

(** One row [[ts, o, h, l, c, v]] of [data.candles].  The prices may be
    null; the volume is a number. *)
Record candle : Type := mkCandle {
  c_ts : string;
  c_open : option Q;
  c_high : option Q;
  c_low : option Q;
  c_close : option Q;
  c_vol : Q
}.

(** A row of the batch: it has fewer than six fields ([len(c) < 6]), or it
    unpacks into the six fields of a candle, or it has more than six
    fields, of which [c] holds the first six; such a row passes the length
    test and the six-name unpacking raises [ValueError]. *)
Inductive row : Type :=
| Short
| Full (c : candle)
| Long (c : candle).

(** The variables of the accumulation loop.  [d_high] and [d_low] start at
    minus and plus infinity, here [None]. *)
Record scan : Type := mkScan {
  vol_at_price : list (Q * Q);
  total_vol : Q;
  d_high : option Q;
  d_low : option Q
}.

Definition scan_init : scan :=
  {| vol_at_price := []; total_vol := 0; d_high := None; d_low := None |}.

(** [max(d_high, h)] and [min(d_low, l)] *)
Definition running_max (cur : option Q) (h : Q) : option Q :=
  match cur with
  | None => Some h
  | Some m => if Py.Qltb m h then Some h else Some m
  end.

Definition running_min (cur : option Q) (l : Q) : option Q :=
  match cur with
  | None => Some l
  | Some m => if Py.Qltb l m then Some l else Some m
  end.

(** The body of [for c in candles]. *)
Definition scan_candle (bucket_size : Q) (st : scan) (r : row) : result scan :=
  match r with
  | Short => Ret st
  | Long _ => Raise ValueError
  | Full c =>
      match c_close c with
      | None => Ret st
      | Some close =>
          q <- Py.div close bucket_size ;;
          let bucket := (inject_Z (Py.round q) * bucket_size)%Q in
          let vap := vol_at_price st in
          Ret {| vol_at_price :=
                   dict_set Qeq_bool vap bucket
                     (dict_get_default Qeq_bool vap bucket 0 + c_vol c)%Q;
                 total_vol := (total_vol st + c_vol c)%Q;
                 d_high := match c_high c with
                           | Some h => running_max (d_high st) h
                           | None => d_high st
                           end;
                 d_low := match c_low c with
                          | Some l => running_min (d_low st) l
                          | None => d_low st
                          end |}
      end
  end.

Fixpoint scan_candles (bucket_size : Q) (st : scan) (candles : list row)
  : result scan :=
  match candles with
  | [] => Ret st
  | r :: rest =>
      st' <- scan_candle bucket_size st r ;;
      scan_candles bucket_size st' rest
  end.

(** [sorted(vol_at_price.items(), key=lambda x: x[1], reverse=True)]:
    descending by volume and stable, buckets of equal volume keep the order
    of the dictionary. *)
Fixpoint insert_desc (x : Q * Q) (l : list (Q * Q)) : list (Q * Q) :=
  match l with
  | [] => [x]
  | y :: l' => if Py.Qltb (snd x) (snd y) then y :: insert_desc x l' else x :: l
  end.

Definition sorted_by_vol (d : list (Q * Q)) : list (Q * Q) :=
  fold_right insert_desc [] d.

(** The greedy loop over [sorted_by_vol]: the accepted buckets, in the order
    they were accepted.  [va_prices] is the set of their prices. *)
Fixpoint value_area (target cum : Q) (items : list (Q * Q)) : list (Q * Q) :=
  match items with
  | [] => []
  | (price, v) :: rest =>
      let cum' := (cum + v)%Q in
      if Qle_bool target cum' then [(price, v)]
      else (price, v) :: value_area target cum' rest
  end.

Record MarketProfile : Type := mkProfile {
  poc : Q;
  vah : Q;
  val : Q;
  high : option Q;
  low : option Q
}.

Definition value_area_of (st : scan) : list (Q * Q) :=
  value_area (total_vol st * (7 # 10))%Q 0 (sorted_by_vol (vol_at_price st)).

Definition build_market_profile (candles : list row) (bucket_size : Q)
  : result (option MarketProfile) :=
  match candles with
  | [] => Ret None
  | _ =>
      st <- scan_candles bucket_size scan_init candles ;;
      match vol_at_price st with
      | [] => Ret None
      | _ =>
          if Qle_bool (total_vol st) 0 then Ret None
          else
            poc_item <- Py.max_by snd (vol_at_price st) ;;
            let va_prices := map fst (value_area_of st) in
            vah_price <- Py.max_by (fun p => p) va_prices ;;
            val_price <- Py.min_by (fun p => p) va_prices ;;
            Ret (Some {| poc := fst poc_item;
                         vah := vah_price;
                         val := val_price;
                         high := d_high st;
                         low := d_low st |})
      end
  end.

(** Measures used to state the properties of the profile: the close of a
    row (its fifth field; a short row has none), the volume the loop counts
    for a batch (that of the six-field rows with a close), and the volume of
    a list of buckets. *)
Definition row_close (r : row) : option Q :=
  match r with
  | Short => None
  | Full c => c_close c
  | Long c => c_close c
  end.

Definition counted_vol (r : row) : Q :=
  match r with
  | Short => 0
  | Full c => match c_close c with
              | Some _ => c_vol c
              | None => 0
              end
  | Long _ => 0
  end.

(** The row has at most six fields. *)
Definition at_most_six (r : row) : bool :=
  match r with
  | Long _ => false
  | _ => true
  end.

(** A row the loop passes over: fewer than six fields, or six fields with
    a null close. *)
Definition skipped (r : row) : bool :=
  match r with
  | Short => true
  | Full c => match c_close c with
              | Some _ => false
              | None => true
              end
  | Long _ => false
  end.

(** The volume of a row (its sixth field; a short row has none), and the
    volume of all the rows of a batch, whether or not they have a close. *)
Definition row_vol (r : row) : Q :=
  match r with
  | Short => 0
  | Full c => c_vol c
  | Long c => c_vol c
  end.

Definition all_volume (candles : list row) : Q :=
  fold_right (fun r acc => row_vol r + acc)%Q 0 candles.

Definition batch_volume (candles : list row) : Q :=
  fold_right (fun r acc => counted_vol r + acc)%Q 0 candles.

(** The order of [sorted_by_vol]: no bucket before one of larger volume. *)
Definition vol_ge (a b : Q * Q) : Prop := (snd b <= snd a)%Q.

Definition sum_vol (buckets : list (Q * Q)) : Q :=
  fold_right (fun b acc => snd b + acc)%Q 0 buckets.

(* ================================================================== *)
(** ** Market quotes *)

(** A decoded JSON document, as [r.json()] returns it. *)
#[local] Unset Elimination Schemes.
Inductive json : Type :=
| JNull
| JBool (b : bool)
| JNum (x : Q)
| JStr (s : string)
| JArr (items : list json)
| JObj (fields : list (string * json)).
#[local] Set Elimination Schemes.

(** What the [try] block of a request yields: an exception from the
    transport or from the decoding, or the decoded body. *)
Inductive reply : Type :=
| Failed
| Body (js : json).

(** [j.get(k, default)]: only a [dict] has the method. *)
Definition py_get (j : json) (k : string) (default : json) : result json :=
  match j with
  | JObj fields => Ret (dict_get_default String.eqb fields k default)
  | _ => Raise AttributeError
  end.

(** [j.items()] *)
Definition py_items (j : json) : result (list (string * json)) :=
  match j with
  | JObj fields => Ret fields
  | _ => Raise AttributeError
  end.

(** Truth value of a Python object. *)
Definition truthy (j : json) : bool :=
  match j with
  | JNull => false
  | JBool b => b
  | JNum x => negb (Qeq_bool x 0)
  | JStr s => negb (String.eqb s "")
  | JArr items => match items with [] => false | _ => true end
  | JObj fields => match fields with [] => false | _ => true end
  end.

(** [a or b] *)
Definition py_or (a b : json) : json := if truthy a then a else b.

Definition is_none (j : json) : bool :=
  match j with
  | JNull => true
  | _ => false
  end.

(** [j != "success"] *)
Definition not_success (j : json) : bool :=
  match j with
  | JStr s => negb (String.eqb s "success")
  | _ => true
  end.

Section Quotes.

(** [float(s)] on a string: the number it spells, if it spells one. *)
Variable float_of_str : string -> option Q.

(** [float(j)] *)
Definition py_float (j : json) : result Q :=
  match j with
  | JNum x => Ret x
  | JBool b => Ret (if b then 1 else 0)%Q
  | JStr s => match float_of_str s with
              | Some x => Ret x
              | None => Raise ValueError
              end
  | JNull | JArr _ | JObj _ => Raise TypeError
  end.

(** The body of [for key, q in data.items()]. *)
Definition quote_entry (out : list (string * (Q * Q))) (key : string) (q : json)
  : result (list (string * (Q * Q))) :=
  ltp0 <- py_get q "last_price" JNull ;;
  ltp <- (if is_none ltp0 then
            ohlc0 <- py_get q "ohlc" JNull ;;
            py_get (py_or ohlc0 (JObj [])) "close" JNull
          else Ret ltp0) ;;
  vol <- py_get q "volume" (JNum 0) ;;
  if is_none ltp then Ret out
  else
    p <- py_float ltp ;;
    v <- py_float (py_or vol (JNum 0)) ;;
    Ret (dict_set String.eqb out key (p, v)).

Fixpoint quote_entries (out : list (string * (Q * Q)))
  (items : list (string * json)) : result (list (string * (Q * Q))) :=
  match items with
  | [] => Ret out
  | (key, q) :: rest =>
      out' <- quote_entry out key q ;;
      quote_entries out' rest
  end.

(** [upstream] stands for the GET on [/market-quote/quotes] with the joined
    keys as [instrument_key] parameter, followed by [r.json()]. *)
Definition fetch_quotes (upstream : string -> reply)
  (instrument_keys : list string) : result (list (string * (Q * Q))) :=
  match instrument_keys with
  | [] => Ret []
  | _ =>
      let joined := String.concat "," instrument_keys in
      match upstream joined with
      | Failed => Ret []
      | Body js =>
          status <- py_get js "status" JNull ;;
          if not_success status then Ret []
          else
            data <- py_get js "data" (JObj []) ;;
            items <- py_items data ;;
            quote_entries [] items
      end
  end.

End Quotes.

(** The quote of one entry in the words of its description, to compare
    [fetch_quotes] with: the price is [last_price], or the [close] of [ohlc]
    when [last_price] is null or absent; without either there is no quote;
    a null or absent [volume] counts as 0. *)
Definition number_of (j : json) : option Q :=
  match j with
  | JNum x => Some x
  | _ => None
  end.

Definition field (q : json) (k : string) : json :=
  match q with
  | JObj fields => dict_get_default String.eqb fields k JNull
  | _ => JNull
  end.

Definition entry_price (q : json) : option Q :=
  match number_of (field q "last_price") with
  | Some p => Some p
  | None => number_of (field (field q "ohlc") "close")
  end.

Definition entry_volume (q : json) : Q :=
  match number_of (field q "volume") with
  | Some v => v
  | None => 0
  end.

Definition entry_quote (q : json) : option (Q * Q) :=
  match entry_price q with
  | Some p => Some (p, entry_volume q)
  | None => None
  end.

(** The shape of an entry of the quote response: an object whose
    [last_price] and [volume] are numbers, null or absent, and whose [ohlc]
    is null, absent, or an object with such a [close]. *)
Definition num_or_null (j : json) : bool :=
  match j with
  | JNull | JNum _ => true
  | _ => false
  end.

Definition entry_ok (q : json) : bool :=
  match q with
  | JObj _ =>
      num_or_null (field q "last_price")
      && match field q "ohlc" with
         | JNull => true
         | JObj o => num_or_null (field (JObj o) "close")
         | _ => false
         end
      && num_or_null (field q "volume")
  | _ => false
  end.

(** Quotes compared as Python compares them, number by number. *)
Definition same_quote (a b : option (Q * Q)) : Prop :=
  match a, b with
  | Some (p, v), Some (p', v') => (p == p' /\ v == v')%Q
  | None, None => True
  | _, _ => False
  end.

(* ================================================================== *)
(** ** Option contracts and ATM selection *)

(** A record of the option chain.  [instrument_type] is read with [get],
    so it may be absent; the other fields are indexed directly. *)
Record contract : Type := mkContract {
  instrument_type : option string;
  strike_price : Q;
  instrument_key : string;
  trading_symbol : string
}.

Definition has_type (opt_type : string) (c : contract) : bool :=
  match instrument_type c with
  | Some t => String.eqb t opt_type
  | None => false
  end.

Definition strike_of (c : contract) : Z := Py.int (strike_price c).

(** [sorted({...})]: the distinct values in ascending order. *)
Fixpoint insert_strike (x : Z) (l : list Z) : list Z :=
  match l with
  | [] => [x]
  | y :: l' =>
      if (x <? y)%Z then x :: l
      else if (x =? y)%Z then l
      else y :: insert_strike x l'
  end.

Definition sorted_set (l : list Z) : list Z := fold_right insert_strike [] l.

Definition subset_of (contracts : list contract) (opt_type : string)
  : list contract :=
  filter (has_type opt_type) contracts.

Definition available_strikes (contracts : list contract) (opt_type : string)
  : list Z :=
  sorted_set (map strike_of (subset_of contracts opt_type)).

(** [min(range(len(strikes)), key=lambda i: abs(strikes[i] - atm_strike))];
    the caller has checked that [strikes] is not empty. *)
Definition atm_index (strikes : list Z) (atm_strike : Z) : nat :=
  match Py.min_byZ (fun i => Z.abs (nth i strikes 0%Z - atm_strike))
                   (seq 0 (List.length strikes)) with
  | Ret i => i
  | Raise _ => 0%nat
  end.

(** [strikes[start : end + 1]] around the ATM index. *)
Definition window (strikes : list Z) (atm_strike strikes_each_side : Z)
  : list Z :=
  let atm_idx := Z.of_nat (atm_index strikes atm_strike) in
  let start := Z.max 0 (atm_idx - strikes_each_side) in
  let end_ := Z.min (Z.of_nat (List.length strikes) - 1)
                    (atm_idx + strikes_each_side) in
  Py.slice strikes start (end_ + 1).

Definition chosen_strikes (contracts : list contract) (opt_type : string)
  (atm_strike strikes_each_side : Z) : list Z :=
  match available_strikes contracts opt_type with
  | [] => []
  | strikes => window strikes atm_strike strikes_each_side
  end.

(** The inner loops: for each chosen strike, the first contract of the
    subset with that strike. *)
Definition first_match (subset : list contract) (s : Z)
  : list (string * string) :=
  match find (fun c => (strike_of c =? s)%Z) subset with
  | Some c => [(instrument_key c, trading_symbol c)]
  | None => []
  end.

(** The body of [for opt_type in ("CE", "PE")]: what it appends to
    [results]. *)
Definition pick_for_type (contracts : list contract)
  (atm_strike strikes_each_side : Z) (opt_type : string)
  : list (string * string) :=
  let subset := subset_of contracts opt_type in
  match subset with
  | [] => []
  | _ =>
      flat_map (first_match subset)
        (chosen_strikes contracts opt_type atm_strike strikes_each_side)
  end.

(** The list [results] as the loop over the two option types leaves it. *)
Definition results_built (contracts : list contract)
  (atm_strike strikes_each_side : Z) : list (string * string) :=
  flat_map (pick_for_type contracts atm_strike strikes_each_side)
           ["CE"%string; "PE"%string].

(** The function ends in a bare [return]: whatever [results] holds, the
    caller gets [None]. *)
Definition pick_atm_plus_minus (contracts : list contract)
  (atm_strike strikes_each_side : Z) : option (list (string * string)) :=
  let results := results_built contracts atm_strike strikes_each_side in
  None.

(** A result pair and the strike it was selected for: the pair is that of a
    contract of the list with this option type and this strike. *)
Definition from_contract (contracts : list contract) (opt_type : string)
  (s : Z) (p : string * string) : Prop :=
  exists c, In c contracts /\ instrument_type c = Some opt_type /\
            strike_of c = s /\ p = (instrument_key c, trading_symbol c).

(* ================================================================== *)
(** ** Trapped Sellers Buy *)

(** Modelled from the spec: the signal engine that evaluates the rules on
    each tick is not among the source files.  Following the spec's words,
    for an index instrument the engine keeps the previous price; on a new
    price, with a current market profile, Trapped Sellers Buy fires when the
    previous price was below VAL and the current price is at or above VAL.
    Without a profile, or without a previous price, nothing fires. *)
Definition trapped_sellers_buy (mp : option MarketProfile)
  (prev : option Q) (cur : Q) : bool :=
  match mp, prev with
  | Some p, Some prev_price =>
      Py.Qltb prev_price (val p) && Qle_bool (val p) cur
  | _, _ => false
  end.

(* ================================================================== *)
(** ** Candle and contract requests *)

Definition BASE_URL : string := "https://api.upstox.com/v2".

(** [j[k]] with a string [k], inside a [try] whose handler catches every
    exception: [None] stands for the exception raised ([KeyError] on a
    [dict] without the key, [TypeError] on any other value). *)
Definition py_index (j : json) (k : string) : option json :=
  match j with
  | JObj fields => dict_get String.eqb fields k
  | _ => None
  end.

(** [upstream] stands for the GET on the URL followed by [r.json()].  The
    whole body is in the [try]; the handler returns the empty list.  The
    source gives [interval] the default "1minute". *)
Definition fetch_intraday_candles (upstream : string -> reply)
  (instrument_key interval : string) : json :=
  let url := (BASE_URL ++ "/historical-candle/intraday/" ++ instrument_key
              ++ "/" ++ interval)%string in
  match upstream url with
  | Failed => JArr []
  | Body js =>
      match py_get js "status" JNull with
      | Raise _ => JArr []
      | Ret status =>
          if not_success status then JArr []
          else match py_index js "data" with
               | None => JArr []
               | Some data =>
                   match py_index data "candles" with
                   | None => JArr []
                   | Some candles => candles
                   end
               end
      end
  end.

(** [upstream] stands for the GET on [/option/contract] with the two
    parameters, followed by [r.json()]. *)
Definition get_option_contracts (upstream : string -> string -> reply)
  (underlying_key expiry_date : string) : json :=
  match upstream underlying_key expiry_date with
  | Failed => JArr []
  | Body js =>
      match py_get js "status" JNull with
      | Raise _ => JArr []
      | Ret status =>
          if not_success status then JArr []
          else match py_index js "data" with
               | None => JArr []
               | Some data => data
               end
      end
  end.

(* ================================================================== *)
(** ** Further measures *)

(** The bucket of a close: [round(close / bucket_size) * bucket_size], as
    the loop computes it.  The product is the exact one; the floating point
    product of the code agrees with it for an integer bucket width (such as
    the configured 10.0), and may differ in the last place otherwise. *)
Definition bucket_of (bucket_size close : Q) : Q :=
  (inject_Z (Py.round (close / bucket_size)) * bucket_size)%Q.

(** The volume of the rows of a batch whose close falls in the bucket of
    price [k]. *)
Definition bucket_volume (bucket_size k : Q) (candles : list row) : Q :=
  fold_right
    (fun r acc =>
       match row_close r, r with
       | Some close, Full c =>
           if Qeq_bool (bucket_of bucket_size close) k
           then (c_vol c + acc)%Q else acc
       | _, _ => acc
       end) 0%Q candles.

(** The highs and the lows the loop looks at: those of the rows that have a
    close. *)
Definition counted_highs (candles : list row) : list Q :=
  flat_map (fun r => match r with
                     | Full c => match c_close c, c_high c with
                                 | Some _, Some h => [h]
                                 | _, _ => []
                                 end
                     | Short => []
                     | Long _ => []
                     end) candles.

Definition counted_lows (candles : list row) : list Q :=
  flat_map (fun r => match r with
                     | Full c => match c_close c, c_low c with
                                 | Some _, Some l => [l]
                                 | _, _ => []
                                 end
                     | Short => []
                     | Long _ => []
                     end) candles.

(** The closes of a batch. *)
Definition closes (candles : list row) : list Q :=
  flat_map (fun r => match row_close r with
                     | Some close => [close]
                     | None => []
                     end) candles.

(** A contract the selection looks at: a call or a put. *)
Definition call_or_put (c : contract) : bool :=
  has_type "CE" c || has_type "PE" c.

(** The centre of the window: the strike at the ATM index. *)
Definition centre_strike (strikes : list Z) (atm_strike : Z) : Z :=
  nth (atm_index strikes atm_strike) strikes 0%Z.

(** [c] is the first contract of the list with this type and strike. *)
Definition first_of (contracts : list contract) (opt_type : string) (s : Z)
  (c : contract) : Prop :=
  exists before after,
    contracts = before ++ c :: after /\
    instrument_type c = Some opt_type /\ strike_of c = s /\
    forall c', In c' before ->
               ~ (instrument_type c' = Some opt_type /\ strike_of c' = s).

Definition is_object (j : json) : bool :=
  match j with
  | JObj _ => true
  | _ => false
  end.

(* ================================================================== *)
(** * Properties *)

Unset Implicit Arguments.

(** ** Rounding *)

Lemma Qltb_lt (a b : Q) : Py.Qltb a b = true <-> (a < b)%Q.
Proof.
  unfold Py.Qltb. rewrite negb_true_iff. split; intro H.
  - apply Qnot_le_lt. intro L. apply Qle_bool_iff in L. congruence.
  - destruct (Qle_bool b a) eqn:E; trivial.
    apply Qle_bool_iff in E. exfalso. exact (Qlt_not_le _ _ H E).
Qed.

Lemma Qltb_ge (a b : Q) : Py.Qltb a b = false <-> (b <= a)%Q.
Proof.
  unfold Py.Qltb. rewrite negb_false_iff. apply Qle_bool_iff.
Qed.

Lemma round_cases (x : Q) :
  let f := inject_Z (Qfloor x) in
  let r := inject_Z (Py.round x) in
  (f <= x /\ x < f + 1 /\
   ((r == f /\ x - f <= 1 # 2) \/ (r == f + 1 /\ 1 # 2 <= x - f)))%Q.
Proof.
  cbv zeta.
  pose proof (Qfloor_le x) as Hlo.
  pose proof (Qlt_floor x) as Hhi.
  rewrite inject_Z_plus in Hhi. change (inject_Z 1) with 1%Q in Hhi.
  split; [exact Hlo|]. split; [exact Hhi|].
  unfold Py.round.
  destruct (x - inject_Z (Qfloor x) ?= 1 # 2)%Q eqn:E.
  - apply Qeq_alt in E.
    destruct (Z.even (Qfloor x)).
    + left. split; [reflexivity | lra].
    + right. rewrite inject_Z_plus. change (inject_Z 1) with 1%Q.
      split; [reflexivity | lra].
  - apply Qlt_alt in E. left. split; [reflexivity | lra].
  - apply Qgt_alt in E. right. rewrite inject_Z_plus.
    change (inject_Z 1) with 1%Q. split; [reflexivity | lra].
Qed.

(** [round] is at least as close to its argument as any integer. *)
Lemma round_nearest (x : Q) (k : Z) :
  (Qabs (inject_Z (Py.round x) - x) <= Qabs (inject_Z k - x))%Q.
Proof.
  destruct (round_cases x) as (Hlo & Hhi & Hr).
  assert (Hk : (inject_Z k <= inject_Z (Qfloor x)
                \/ inject_Z (Qfloor x) + 1 <= inject_Z k)%Q).
  { destruct (Z_le_gt_dec k (Qfloor x)) as [L | G].
    - left. now rewrite Zle_Qle in L.
    - right. assert (L : (Qfloor x + 1 <= k)%Z) by lia.
      rewrite Zle_Qle, inject_Z_plus in L. exact L. }
  apply Qabs_case; intro Ha; apply Qabs_case; intro Hb;
    destruct Hr as [[Hr ?] | [Hr ?]]; destruct Hk; lra.
Qed.

Lemma Qfloor_unique (x : Q) (k : Z) :
  (inject_Z k <= x)%Q -> (x < inject_Z k + 1)%Q -> Qfloor x = k.
Proof.
  intros Hlo Hhi.
  destruct (round_cases x) as (Flo & Fhi & _).
  assert (A : (inject_Z k < inject_Z (Qfloor x + 1))%Q).
  { rewrite inject_Z_plus. change (inject_Z 1) with 1%Q. lra. }
  assert (B : (inject_Z (Qfloor x) < inject_Z (k + 1))%Q).
  { rewrite inject_Z_plus. change (inject_Z 1) with 1%Q. lra. }
  rewrite <- Zlt_Qlt in A, B. lia.
Qed.

(** At an exact midpoint [round] picks the even neighbour. *)
Lemma round_tie (x : Q) (k : Z) :
  (x == inject_Z k + (1 # 2))%Q ->
  Py.round x = if Z.even k then k else (k + 1)%Z.
Proof.
  intro Hx.
  assert (Hf : Qfloor x = k) by (apply Qfloor_unique; lra).
  unfold Py.round. rewrite Hf.
  assert (E : (x - inject_Z k ?= 1 # 2)%Q = Eq) by (apply Qeq_alt; lra).
  now rewrite E.
Qed.

Lemma scaled_round_nearest (step : Z) (price : Q) (m : Z) :
  (0 < step)%Z ->
  (Qabs (inject_Z (Py.round (price / inject_Z step) * step) - price)
   <= Qabs (inject_Z (step * m) - price))%Q.
Proof.
  intro Hs.
  assert (Hq : (0 < inject_Z step)%Q) by (now rewrite Zlt_Qlt in Hs).
  set (y := (price / inject_Z step)%Q).
  assert (Hp : (price == y * inject_Z step)%Q).
  { unfold y. field. lra. }
  pose proof (round_nearest y m) as Hn.
  rewrite !inject_Z_mult.
  set (r := inject_Z (Py.round y)) in *.
  set (s := inject_Z step) in *.
  set (k := inject_Z m) in *.
  revert Hn.
  apply Qabs_case; intro Ha; apply Qabs_case; intro Hb;
    apply Qabs_case; intro Hc; apply Qabs_case; intros Hd Hn;
    rewrite Hp in *; nra.
Qed.

(** C8. For every last price, [round_nifty_strike] is a multiple of 50 that
    is at least as close to the price as every other multiple of 50, and
    [round_banknifty_strike] is such a multiple of 100.  At an exact
    midpoint between two multiples the one with the even quotient is
    returned (Python's rounding of ties). *)
Theorem strike_rounding_nearest :
  (forall price : Q,
      (exists k : Z, round_nifty_strike price = (50 * k)%Z) /\
      (forall m : Z,
          Qabs (inject_Z (round_nifty_strike price) - price)
          <= Qabs (inject_Z (50 * m) - price))%Q) /\
  (forall price : Q,
      (exists k : Z, round_banknifty_strike price = (100 * k)%Z) /\
      (forall m : Z,
          Qabs (inject_Z (round_banknifty_strike price) - price)
          <= Qabs (inject_Z (100 * m) - price))%Q) /\
  (forall k : Z,
      round_nifty_strike (inject_Z (50 * k + 25))
      = (50 * (if Z.even k then k else k + 1))%Z) /\
  (forall k : Z,
      round_banknifty_strike (inject_Z (100 * k + 50))
      = (100 * (if Z.even k then k else k + 1))%Z).
Proof.
  repeat split.
  - exists (Py.round (price / 50)). unfold round_nifty_strike. lia.
  - intro m. apply (scaled_round_nearest 50 price m). lia.
  - exists (Py.round (price / 100)). unfold round_banknifty_strike. lia.
  - intro m. apply (scaled_round_nearest 100 price m). lia.
  - intro k. unfold round_nifty_strike.
    rewrite (round_tie (inject_Z (50 * k + 25) / 50) k).
    + destruct (Z.even k); lia.
    + rewrite inject_Z_plus, inject_Z_mult. field.
  - intro k. unfold round_banknifty_strike.
    rewrite (round_tie (inject_Z (100 * k + 50) / 100) k).
    + destruct (Z.even k); lia.
    + rewrite inject_Z_plus, inject_Z_mult. field.
Qed.

(** ** Market profile: the accumulation loop *)

Lemma sum_vol_dict_set (d : list (Q * Q)) (k v : Q) :
  (sum_vol (dict_set Qeq_bool d k (dict_get_default Qeq_bool d k 0 + v))
   == sum_vol d + v)%Q.
Proof.
  unfold dict_get_default.
  induction d as [| [k' v'] d IH]; simpl.
  - lra.
  - destruct (Qeq_bool k' k); simpl.
    + lra.
    + destruct (dict_get Qeq_bool d k); simpl in *; lra.
Qed.

Lemma div_nonzero (a b : Q) : ~ (b == 0)%Q -> Py.div a b = Ret (a / b)%Q.
Proof.
  intro Hb. unfold Py.div.
  destruct (Qeq_bool b 0) eqn:E; trivial.
  apply Qeq_bool_iff in E. contradiction.
Qed.

(** With a non-zero bucket width the loop body does not raise on a row of
    at most six fields, and it adds the counted volume of the row both to
    the total and to the buckets. *)
Lemma scan_candle_ok (bs : Q) (st : scan) (r : row) :
  ~ (bs == 0)%Q -> at_most_six r = true ->
  exists st', scan_candle bs st r = Ret st' /\
    (total_vol st' == total_vol st + counted_vol r)%Q /\
    (sum_vol (vol_at_price st')
     == sum_vol (vol_at_price st) + counted_vol r)%Q.
Proof.
  intros Hb Hfit. destruct r as [| c | c]; simpl; [| | discriminate Hfit].
  - exists st. repeat split; lra.
  - destruct (c_close c) as [close |].
    + rewrite (div_nonzero close bs Hb). simpl.
      eexists. split; [reflexivity |]. simpl. split; [lra |].
      apply sum_vol_dict_set.
    + exists st. repeat split; lra.
Qed.

Lemma scan_candles_ok (bs : Q) (candles : list row) :
  ~ (bs == 0)%Q ->
  Forall (fun r => at_most_six r = true) candles ->
  forall st, exists st', scan_candles bs st candles = Ret st' /\
    (total_vol st' == total_vol st + batch_volume candles)%Q /\
    (sum_vol (vol_at_price st')
     == sum_vol (vol_at_price st) + batch_volume candles)%Q.
Proof.
  intros Hb Hfit.
  induction Hfit as [| r rest Hr _ IH]; intro st; simpl.
  - exists st. repeat split; lra.
  - destruct (scan_candle_ok bs st r Hb Hr) as (st1 & E1 & T1 & S1).
    rewrite E1. simpl.
    destruct (IH st1) as (st2 & E2 & T2 & S2).
    exists st2. split; [exact E2 |]. split; lra.
Qed.

(** Whenever the loop finishes, the buckets add up to the total volume. *)
Lemma scan_candle_sum (bs : Q) (st st' : scan) (r : row) :
  scan_candle bs st r = Ret st' ->
  (sum_vol (vol_at_price st) == total_vol st)%Q ->
  (sum_vol (vol_at_price st') == total_vol st')%Q.
Proof.
  intros E Hinv. destruct r as [| c | c]; simpl in E; [| | discriminate E].
  - now inversion E; subst.
  - destruct (c_close c) as [close |].
    + destruct (Py.div close bs) as [q | e]; simpl in E; [| discriminate].
      inversion E; subst; clear E. simpl.
      rewrite sum_vol_dict_set. lra.
    + now inversion E; subst.
Qed.

Lemma scan_candles_sum (bs : Q) (candles : list row) :
  forall st st',
    scan_candles bs st candles = Ret st' ->
    (sum_vol (vol_at_price st) == total_vol st)%Q ->
    (sum_vol (vol_at_price st') == total_vol st')%Q.
Proof.
  induction candles as [| r rest IH]; intros st st' E Hinv; simpl in E.
  - now inversion E; subst.
  - destruct (scan_candle bs st r) as [st1 | e] eqn:E1; simpl in E;
      [| discriminate].
    apply (IH st1 st' E). exact (scan_candle_sum bs st st1 r E1 Hinv).
Qed.

(** Short rows and six-field rows without a close leave the loop variables
    untouched, whatever the bucket width. *)
Lemma scan_candles_null (bs : Q) (candles : list row) :
  Forall (fun r => skipped r = true) candles ->
  forall st, scan_candles bs st candles = Ret st.
Proof.
  induction 1 as [| r rest Hr _ IH]; intro st; simpl; trivial.
  destruct r as [| c | c]; simpl in *; [| | discriminate Hr].
  - apply IH.
  - destruct (c_close c); [discriminate Hr |]. simpl. apply IH.
Qed.

(** ** [max] and [min] with a key *)

Section Extremum.

Variables (A : Type) (key : A -> Q).

Let up (best y : A) : A := if Py.Qltb (key best) (key y) then y else best.
Let down (best y : A) : A := if Py.Qltb (key y) (key best) then y else best.

Lemma fold_up_spec (rest : list A) :
  forall x, let m := fold_left up rest x in
    (m = x \/ In m rest) /\
    (key x <= key m)%Q /\ (forall y, In y rest -> (key y <= key m)%Q).
Proof.
  induction rest as [| y rest IH]; intro x; simpl.
  - repeat split; [now left | lra | contradiction].
  - destruct (IH (up x y)) as (Hin & Hx & Hall).
    assert (Hup : (key x <= key (up x y) /\ key y <= key (up x y))%Q
                  /\ (up x y = x \/ up x y = y)).
    { unfold up. destruct (Py.Qltb (key x) (key y)) eqn:E.
      - apply Qltb_lt in E. split; [lra | now right].
      - apply Qltb_ge in E. split; [lra | now left]. }
    destruct Hup as ((Ux & Uy) & Uc).
    repeat split.
    + destruct Hin as [Hm | Hm]; [| now right; right].
      rewrite Hm. destruct Uc as [-> | ->]; [now left | now right; left].
    + lra.
    + intros z [<- | Hz]; [lra | now apply Hall].
Qed.

Lemma fold_down_spec (rest : list A) :
  forall x, let m := fold_left down rest x in
    (m = x \/ In m rest) /\
    (key m <= key x)%Q /\ (forall y, In y rest -> (key m <= key y)%Q).
Proof.
  induction rest as [| y rest IH]; intro x; simpl.
  - repeat split; [now left | lra | contradiction].
  - destruct (IH (down x y)) as (Hin & Hx & Hall).
    assert (Hdn : (key (down x y) <= key x /\ key (down x y) <= key y)%Q
                  /\ (down x y = x \/ down x y = y)).
    { unfold down. destruct (Py.Qltb (key y) (key x)) eqn:E.
      - apply Qltb_lt in E. split; [lra | now right].
      - apply Qltb_ge in E. split; [lra | now left]. }
    destruct Hdn as ((Dx & Dy) & Dc).
    repeat split.
    + destruct Hin as [Hm | Hm]; [| now right; right].
      rewrite Hm. destruct Dc as [-> | ->]; [now left | now right; left].
    + lra.
    + intros z [<- | Hz]; [lra | now apply Hall].
Qed.

Lemma max_by_spec (l : list A) (m : A) :
  Py.max_by key l = Ret m ->
  In m l /\ forall y, In y l -> (key y <= key m)%Q.
Proof.
  destruct l as [| x rest]; simpl; [discriminate |].
  intro E. inversion E as [Hm]; clear E.
  destruct (fold_up_spec rest x) as (Hin & Hx & Hall).
  fold up. split.
  - destruct Hin as [-> | Hin]; [now left | now right].
  - intros y [<- | Hy]; [exact Hx | now apply Hall].
Qed.

Lemma min_by_spec (l : list A) (m : A) :
  Py.min_by key l = Ret m ->
  In m l /\ forall y, In y l -> (key m <= key y)%Q.
Proof.
  destruct l as [| x rest]; simpl; [discriminate |].
  intro E. inversion E as [Hm]; clear E.
  destruct (fold_down_spec rest x) as (Hin & Hx & Hall).
  fold down. split.
  - destruct Hin as [-> | Hin]; [now left | now right].
  - intros y [<- | Hy]; [exact Hx | now apply Hall].
Qed.

Lemma max_by_nonempty (x : A) (rest : list A) :
  exists m, Py.max_by key (x :: rest) = Ret m.
Proof. simpl. eexists. reflexivity. Qed.

Lemma min_by_nonempty (x : A) (rest : list A) :
  exists m, Py.min_by key (x :: rest) = Ret m.
Proof. simpl. eexists. reflexivity. Qed.

End Extremum.

(** ** The stable descending sort *)

Lemma insert_desc_in (x y : Q * Q) (l : list (Q * Q)) :
  In y (insert_desc x l) <-> y = x \/ In y l.
Proof.
  induction l as [| z l IH]; simpl.
  - intuition.
  - destruct (Py.Qltb (snd x) (snd z)); simpl; rewrite ?IH; intuition.
Qed.

Lemma sorted_by_vol_in (y : Q * Q) (d : list (Q * Q)) :
  In y (sorted_by_vol d) <-> In y d.
Proof.
  induction d as [| x d IH]; simpl; [tauto |].
  rewrite insert_desc_in, IH. intuition.
Qed.

Lemma insert_desc_sorted (x : Q * Q) (l : list (Q * Q)) :
  StronglySorted vol_ge l -> StronglySorted vol_ge (insert_desc x l).
Proof.
  induction 1 as [| z l Hs IH Hz]; simpl.
  - constructor; constructor.
  - destruct (Py.Qltb (snd x) (snd z)) eqn:E.
    + apply Qltb_lt in E. constructor; [exact IH |].
      apply Forall_forall. intros y Hy. apply insert_desc_in in Hy.
      destruct Hy as [-> | Hy].
      * unfold vol_ge. lra.
      * rewrite Forall_forall in Hz. now apply Hz.
    + apply Qltb_ge in E. constructor; [now constructor |].
      constructor; [exact E |].
      rewrite Forall_forall in Hz |- *. intros y Hy.
      specialize (Hz y Hy). unfold vol_ge in *. lra.
Qed.

Lemma sorted_by_vol_sorted (d : list (Q * Q)) :
  StronglySorted vol_ge (sorted_by_vol d).
Proof.
  induction d as [| x d IH]; simpl.
  - constructor.
  - now apply insert_desc_sorted.
Qed.

Lemma insert_desc_sum (x : Q * Q) (l : list (Q * Q)) :
  (sum_vol (insert_desc x l) == snd x + sum_vol l)%Q.
Proof.
  induction l as [| z l IH]; simpl.
  - lra.
  - destruct (Py.Qltb (snd x) (snd z)); simpl; lra.
Qed.

Lemma sorted_by_vol_sum (d : list (Q * Q)) :
  (sum_vol (sorted_by_vol d) == sum_vol d)%Q.
Proof.
  induction d as [| x d IH]; simpl.
  - lra.
  - rewrite insert_desc_sum. lra.
Qed.

Lemma insert_desc_hd (x dflt : Q * Q) (l : list (Q * Q)) :
  hd dflt (insert_desc x l)
  = match l with
    | [] => x
    | y :: _ => if Py.Qltb (snd x) (snd y) then y else x
    end.
Proof.
  destruct l as [| y l]; simpl; trivial.
  now destruct (Py.Qltb (snd x) (snd y)).
Qed.

Lemma sorted_by_vol_hd_ge (dflt x : Q * Q) (d : list (Q * Q)) :
  (snd x <= snd (hd dflt (sorted_by_vol (x :: d))))%Q.
Proof.
  pose proof (sorted_by_vol_sorted (x :: d)) as Hs.
  assert (Hin : In x (sorted_by_vol (x :: d)))
    by (apply sorted_by_vol_in; now left).
  destruct (sorted_by_vol (x :: d)) as [| h t]; [contradiction |].
  simpl. destruct Hin as [-> | Hin]; [lra |].
  apply StronglySorted_inv in Hs. destruct Hs as [_ Hall].
  rewrite Forall_forall in Hall. exact (Hall x Hin).
Qed.

(** The bucket [max] picks, the first one of largest volume, is the bucket
    the stable sort puts first. *)
Lemma first_max_is_sorted_head (dflt : Q * Q) (rest : list (Q * Q)) :
  forall x,
    fold_left (fun best y => if Py.Qltb (snd best) (snd y) then y else best)
              rest x
    = hd dflt (sorted_by_vol (x :: rest)).
Proof.
  induction rest as [| y r IH]; intro x; [reflexivity |].
  cbn [fold_left].
  change (sorted_by_vol (x :: y :: r))
    with (insert_desc x (sorted_by_vol (y :: r))).
  rewrite insert_desc_hd.
  destruct (Py.Qltb (snd x) (snd y)) eqn:Exy.
  - rewrite IH. apply Qltb_lt in Exy.
    pose proof (sorted_by_vol_hd_ge dflt y r) as Hge.
    destruct (sorted_by_vol (y :: r)) as [| h t] eqn:Es.
    + exfalso. assert (Hin : In y (sorted_by_vol (y :: r)))
        by (apply sorted_by_vol_in; now left).
      now rewrite Es in Hin.
    + simpl in Hge |- *.
      destruct (Py.Qltb (snd x) (snd h)) eqn:Exh; trivial.
      apply Qltb_ge in Exh. lra.
  - rewrite IH. apply Qltb_ge in Exy.
    change (sorted_by_vol (x :: r)) with (insert_desc x (sorted_by_vol r)).
    change (sorted_by_vol (y :: r)) with (insert_desc y (sorted_by_vol r)).
    rewrite insert_desc_hd.
    destruct (sorted_by_vol r) as [| h' t']; simpl.
    + destruct (Py.Qltb (snd x) (snd y)) eqn:E; trivial.
      apply Qltb_lt in E. lra.
    + destruct (Py.Qltb (snd y) (snd h')) eqn:Eyh; trivial.
      apply Qltb_ge in Eyh.
      destruct (Py.Qltb (snd x) (snd h')) eqn:E1;
        destruct (Py.Qltb (snd x) (snd y)) eqn:E2; trivial;
        try apply Qltb_lt in E1; try apply Qltb_lt in E2;
        try apply Qltb_ge in E1; try apply Qltb_ge in E2; lra.
Qed.

(** ** The greedy value area *)

Lemma sum_vol_cons (x : Q * Q) (l : list (Q * Q)) :
  sum_vol (x :: l) = (snd x + sum_vol l)%Q.
Proof. reflexivity. Qed.

Lemma value_area_head (t c : Q) (x : Q * Q) (rest : list (Q * Q)) :
  exists tl, value_area t c (x :: rest) = x :: tl.
Proof.
  destruct x as [p v]. simpl.
  destruct (Qle_bool t (c + v)); eexists; reflexivity.
Qed.

Lemma value_area_prefix (t : Q) (items : list (Q * Q)) :
  forall c, exists rest, items = value_area t c items ++ rest.
Proof.
  induction items as [| [p v] items IH]; intro c; simpl.
  - now exists [].
  - destruct (Qle_bool t (c + v)).
    + now exists items.
    + destruct (IH (c + v)%Q) as [rest Hr]. exists rest. simpl. now f_equal.
Qed.

(** The loop stops with the target reached, as soon as the whole list
    reaches it. *)
Lemma value_area_reaches (t : Q) (items : list (Q * Q)) :
  forall c, (t <= c + sum_vol items)%Q ->
            (t <= c + sum_vol (value_area t c items))%Q.
Proof.
  induction items as [| [p v] items IH]; intros c H; simpl in *.
  - exact H.
  - destruct (Qle_bool t (c + v)) eqn:E; simpl.
    + apply Qle_bool_iff in E. lra.
    + assert (H' : (t <= (c + v) + sum_vol items)%Q) by lra.
      specialize (IH (c + v)%Q H'). lra.
Qed.

(** Before its last bucket the accepted set is short of the target. *)
Lemma value_area_minimal (t : Q) (items : list (Q * Q)) :
  forall c, (c < t)%Q ->
            (c + sum_vol (removelast (value_area t c items)) < t)%Q.
Proof.
  induction items as [| [p v] items IH]; intros c H.
  - simpl. lra.
  - cbn [value_area].
    destruct (Qle_bool t (c + v)) eqn:E.
    + simpl. lra.
    + assert (H' : (c + v < t)%Q).
      { apply Qnot_le_lt. intro L. apply Qle_bool_iff in L. congruence. }
      specialize (IH (c + v)%Q H').
      destruct (value_area t (c + v) items) as [| b va] eqn:Eva.
      * simpl. lra.
      * change (removelast ((p, v) :: b :: va))
          with ((p, v) :: removelast (b :: va)).
        rewrite sum_vol_cons. simpl snd. lra.
Qed.

Lemma sum_vol_removelast (dflt : Q * Q) (l : list (Q * Q)) :
  l <> [] ->
  (sum_vol l == sum_vol (removelast l) + snd (last l dflt))%Q.
Proof.
  induction l as [| x l IH]; intro Hne; [congruence |].
  destruct l as [| y l].
  - simpl. lra.
  - change (removelast (x :: y :: l)) with (x :: removelast (y :: l)).
    change (last (x :: y :: l) dflt) with (last (y :: l) dflt).
    assert (Hy : y :: l <> []) by discriminate.
    specialize (IH Hy). rewrite !(sum_vol_cons x). lra.
Qed.

Lemma sorted_last_least (dflt : Q * Q) (l : list (Q * Q)) :
  StronglySorted vol_ge l ->
  forall b, In b l -> (snd (last l dflt) <= snd b)%Q.
Proof.
  induction 1 as [| x l Hs IH Hx]; intros b Hb; [contradiction |].
  destruct l as [| y l].
  - destruct Hb as [<- | []]. simpl. lra.
  - change (last (x :: y :: l) dflt) with (last (y :: l) dflt).
    destruct Hb as [<- | Hb]; [| now apply IH].
    rewrite Forall_forall in Hx.
    assert (Hl : In (last (y :: l) dflt) (y :: l)).
    { clear. revert y. induction l as [| z l IHl]; intro y.
      - now left.
      - right. apply IHl. }
    exact (Hx _ Hl).
Qed.

Lemma sorted_prefix (l1 l2 : list (Q * Q)) :
  StronglySorted vol_ge (l1 ++ l2) -> StronglySorted vol_ge l1.
Proof.
  induction l1 as [| x l1 IH]; simpl; intro H; [constructor |].
  apply StronglySorted_inv in H. destruct H as [Hs Hx].
  constructor; [now apply IH |].
  rewrite Forall_forall in Hx |- *. intros y Hy. apply Hx.
  apply in_or_app. now left.
Qed.

(** ** The profile *)

Lemma Qle_bool_false (a b : Q) : Qle_bool a b = false <-> (b < a)%Q.
Proof.
  split; intro H.
  - apply Qnot_le_lt. intro L. apply Qle_bool_iff in L. congruence.
  - destruct (Qle_bool a b) eqn:E; trivial.
    apply Qle_bool_iff in E. exfalso. exact (Qlt_not_le _ _ H E).
Qed.

(** What a returned profile was computed from. *)
Lemma build_profile_inv (candles : list row) (bs : Q) (mp : MarketProfile) :
  build_market_profile candles bs = Ret (Some mp) ->
  exists st b,
    scan_candles bs scan_init candles = Ret st /\
    (0 < total_vol st)%Q /\
    Py.max_by snd (vol_at_price st) = Ret b /\ poc mp = fst b /\
    Py.max_by (fun p => p) (map fst (value_area_of st)) = Ret (vah mp) /\
    Py.min_by (fun p => p) (map fst (value_area_of st)) = Ret (val mp).
Proof.
  unfold build_market_profile.
  destruct candles as [| r rest]; [discriminate |].
  destruct (scan_candles bs scan_init (r :: rest)) as [st | e];
    [| discriminate].
  cbn [bind].
  destruct (vol_at_price st) as [| x d] eqn:Ev; [discriminate |].
  destruct (Qle_bool (total_vol st) 0) eqn:Et; [discriminate |].
  apply Qle_bool_false in Et.
  destruct (Py.max_by snd (x :: d)) as [b | e] eqn:Eb; [| discriminate].
  cbn [bind].
  destruct (Py.max_by (fun p => p) (map fst (value_area_of st)))
    as [hi | e] eqn:Eh; [| discriminate].
  cbn [bind].
  destruct (Py.min_by (fun p => p) (map fst (value_area_of st)))
    as [lo | e] eqn:El; [| discriminate].
  cbn [bind]. intro E. inversion E; subst; clear E. simpl.
  exists st, b. rewrite Ev. repeat split; trivial.
Qed.

(** The point of control is one of the accepted prices. *)
Lemma poc_in_value_area (st : scan) (b : Q * Q) :
  Py.max_by snd (vol_at_price st) = Ret b ->
  In (fst b) (map fst (value_area_of st)).
Proof.
  unfold value_area_of.
  destruct (vol_at_price st) as [| x d]; simpl; [discriminate |].
  intro E. inversion E as [Hb]; clear E.
  rewrite (first_max_is_sorted_head x d x).
  change (insert_desc x (sorted_by_vol d)) with (sorted_by_vol (x :: d)).
  assert (Hin : In x (sorted_by_vol (x :: d)))
    by (apply sorted_by_vol_in; now left).
  destruct (sorted_by_vol (x :: d)) as [| h t]; [contradiction |].
  destruct (value_area_head (total_vol st * (7 # 10)) 0 h t) as [tl ->].
  now left.
Qed.

Lemma profile_ordered (candles : list row) (bs : Q) (mp : MarketProfile) :
  build_market_profile candles bs = Ret (Some mp) ->
  (val mp <= poc mp /\ poc mp <= vah mp)%Q.
Proof.
  intro H.
  destruct (build_profile_inv candles bs mp H)
    as (st & b & _ & _ & Hb & Hpoc & Hhi & Hlo).
  pose proof (poc_in_value_area st b Hb) as Hin.
  apply max_by_spec in Hhi. apply min_by_spec in Hlo.
  rewrite Hpoc. split; [apply (proj2 Hlo) | apply (proj2 Hhi)]; exact Hin.
Qed.

Lemma batch_volume_nonempty (candles : list row) :
  (0 < batch_volume candles)%Q -> candles <> [].
Proof.
  intros H ->. simpl in H. lra.
Qed.

Lemma build_profile_total (candles : list row) (bs : Q) :
  ~ (bs == 0)%Q ->
  Forall (fun r => at_most_six r = true) candles ->
  (0 < batch_volume candles)%Q ->
  exists mp, build_market_profile candles bs = Ret (Some mp).
Proof.
  intros Hb Hfit Hv.
  pose proof (batch_volume_nonempty candles Hv) as Hne.
  destruct (scan_candles_ok bs candles Hb Hfit scan_init)
    as (st & Es & Ht & Hs).
  change (total_vol scan_init) with 0%Q in Ht.
  change (sum_vol (vol_at_price scan_init)) with 0%Q in Hs.
  unfold build_market_profile.
  destruct candles as [| r rest]; [congruence |].
  rewrite Es. cbn [bind].
  destruct (vol_at_price st) as [| x d] eqn:Ev.
  { change (sum_vol []) with 0%Q in Hs. lra. }
  assert (Et : Qle_bool (total_vol st) 0 = false)
    by (apply Qle_bool_false; lra).
  rewrite Et.
  destruct (max_by_nonempty _ snd x d) as [b ->]. cbn [bind].
  unfold value_area_of. rewrite Ev.
  assert (Hin : In x (sorted_by_vol (x :: d)))
    by (apply sorted_by_vol_in; now left).
  destruct (sorted_by_vol (x :: d)) as [| h t]; [contradiction |].
  destruct (value_area_head (total_vol st * (7 # 10)) 0 h t) as [tl ->].
  cbn [map].
  destruct (max_by_nonempty _ (fun p : Q => p) (fst h) (map fst tl)) as [hi ->].
  destruct (min_by_nonempty _ (fun p : Q => p) (fst h) (map fst tl)) as [lo ->].
  cbn [bind]. eexists. reflexivity.
Qed.

(** C1, as amended. For every candle batch whose rows have at most six
    fields and in which the rows with a close have positive total volume,
    and a non-zero bucket width, [build_market_profile] returns a profile,
    and in it [val <= poc <= vah]. *)
Theorem profile_val_poc_vah (candles : list row) (bs : Q) :
  ~ (bs == 0)%Q ->
  Forall (fun r => at_most_six r = true) candles ->
  (0 < batch_volume candles)%Q ->
  exists mp,
    build_market_profile candles bs = Ret (Some mp) /\
    (val mp <= poc mp)%Q /\ (poc mp <= vah mp)%Q.
Proof.
  intros Hb Hfit Hv.
  destruct (build_profile_total candles bs Hb Hfit Hv) as [mp Hmp].
  exists mp. split; [exact Hmp |].
  exact (profile_ordered candles bs mp Hmp).
Qed.

Lemma profile_val_poc_vah_witness :
  let batch := [Full (mkCandle "09:15" (Some 99) (Some 104) (Some 98) (Some 101) 5);
                Short;
                Full (mkCandle "09:16" None None None (Some 118) 3);
                Full (mkCandle "09:17" None None None None 4)] in
  ~ (10 == 0)%Q /\
  Forall (fun r => at_most_six r = true) batch /\
  (0 < batch_volume batch)%Q /\
  exists mp,
    build_market_profile batch 10 = Ret (Some mp) /\
    (val mp <= poc mp)%Q /\ (poc mp <= vah mp)%Q.
Proof.
  cbv zeta. split; [| split; [| split]].
  - intro H. discriminate H.
  - repeat constructor.
  - reflexivity.
  - apply profile_val_poc_vah.
    + intro H. discriminate H.
    + repeat constructor.
    + reflexivity.
Defined.

(** C1, as stated, fails.  The batch below is not empty, has a close, and
    its total volume is positive, but all of that volume sits on a row
    whose close is null: the loop passes over that row before it adds the
    volume, [total_vol] stays 0, and no profile is returned. *)
Lemma volume_on_closeless_row_no_profile :
  let batch := [Full (mkCandle "09:15" None None None (Some 101) 0);
                Full (mkCandle "09:16" None None None None 7)] in
  batch <> [] /\
  (0 < all_volume batch)%Q /\
  (exists r close, In r batch /\ row_close r = Some close) /\
  Forall (fun r => at_most_six r = true) batch /\
  build_market_profile batch 10 = Ret None /\
  ~ (exists mp,
        build_market_profile batch 10 = Ret (Some mp) /\
        (val mp <= poc mp)%Q /\ (poc mp <= vah mp)%Q).
Proof.
  cbv zeta. split; [discriminate |]. split; [reflexivity |].
  split.
  { eexists. exists 101. split; [left; reflexivity | reflexivity]. }
  split; [repeat constructor |]. split; [reflexivity |].
  intros (mp & E & _). discriminate E.
Qed.

(** C3. Whenever [build_market_profile] returns a profile, the buckets the
    greedy loop accepted (whose largest and smallest prices are VAH and VAL)
    hold at least 70% of the total volume, and without any one of their
    buckets of smallest volume they hold less than 70% of it. *)
Theorem value_area_share_minimal (candles : list row) (bs : Q)
  (mp : MarketProfile) :
  build_market_profile candles bs = Ret (Some mp) ->
  exists st,
    scan_candles bs scan_init candles = Ret st /\
    let va := value_area_of st in
    let total := total_vol st in
    (sum_vol (vol_at_price st) == total)%Q /\
    (exists rest, sorted_by_vol (vol_at_price st) = va ++ rest) /\
    In (vah mp) (map fst va) /\ In (val mp) (map fst va) /\
    (forall b, In b va -> (val mp <= fst b /\ fst b <= vah mp)%Q) /\
    ((7 # 10) * total <= sum_vol va)%Q /\
    (forall b, In b va ->
               (forall b', In b' va -> (snd b <= snd b')%Q) ->
               (sum_vol va - snd b < (7 # 10) * total)%Q).
Proof.
  intro H.
  destruct (build_profile_inv candles bs mp H)
    as (st & b & Es & Ht & Hb & Hpoc & Hhi & Hlo).
  exists st. split; [exact Es |]. cbv zeta.
  assert (Hsum : (sum_vol (vol_at_price st) == total_vol st)%Q).
  { apply (scan_candles_sum bs candles scan_init st Es). reflexivity. }
  destruct (value_area_prefix (total_vol st * (7 # 10))
              (sorted_by_vol (vol_at_price st)) 0) as [rest Hpre].
  fold (value_area_of st) in Hpre.
  apply max_by_spec in Hhi. apply min_by_spec in Hlo.
  destruct Hhi as [Hhi_in Hhi]. destruct Hlo as [Hlo_in Hlo].
  split; [exact Hsum |]. split; [now exists rest |].
  split; [exact Hhi_in |]. split; [exact Hlo_in |].
  split; [| split].
  - intros x Hx. split; [apply Hlo | apply Hhi]; now apply in_map.
  - pose proof (value_area_reaches (total_vol st * (7 # 10))
                  (sorted_by_vol (vol_at_price st)) 0) as Hr.
    fold (value_area_of st) in Hr.
    rewrite sorted_by_vol_sum, Hsum in Hr.
    assert (Hr' : (total_vol st * (7 # 10)
                   <= 0 + sum_vol (value_area_of st))%Q) by (apply Hr; lra).
    lra.
  - intros x Hx Hmin.
    assert (Hne : value_area_of st <> []) by (intro E; now rewrite E in Hx).
    pose proof (sorted_by_vol_sorted (vol_at_price st)) as Hs.
    rewrite Hpre in Hs. apply sorted_prefix in Hs.
    pose proof (sorted_last_least x (value_area_of st) Hs x Hx) as Hlast.
    assert (Hl : In (last (value_area_of st) x) (value_area_of st)).
    { destruct (exists_last Hne) as (l' & a & ->).
      rewrite last_last. apply in_or_app. right. now left. }
    specialize (Hmin _ Hl).
    pose proof (sum_vol_removelast x (value_area_of st) Hne) as Hrl.
    pose proof (value_area_minimal (total_vol st * (7 # 10))
                  (sorted_by_vol (vol_at_price st)) 0) as Hm.
    fold (value_area_of st) in Hm.
    assert (Hm' : (0 + sum_vol (removelast (value_area_of st))
                   < total_vol st * (7 # 10))%Q) by (apply Hm; lra).
    lra.
Qed.

Lemma value_area_share_minimal_witness :
  let batch := [Full (mkCandle "09:15" (Some 99) (Some 104) (Some 98) (Some 101) 5);
                Full (mkCandle "09:16" None None None (Some 118) 3);
                Full (mkCandle "09:17" None None None (Some 131) 1);
                Full (mkCandle "09:18" None None None (Some 142) 1)] in
  let mp := {| poc := 100; vah := 120; val := 100;
               high := Some 104; low := Some 98 |} in
  build_market_profile batch 10 = Ret (Some mp) /\
  exists st,
    scan_candles 10 scan_init batch = Ret st /\
    let va := value_area_of st in
    let total := total_vol st in
    (sum_vol (vol_at_price st) == total)%Q /\
    (exists rest, sorted_by_vol (vol_at_price st) = va ++ rest) /\
    In (vah mp) (map fst va) /\ In (val mp) (map fst va) /\
    (forall b, In b va -> (val mp <= fst b /\ fst b <= vah mp)%Q) /\
    ((7 # 10) * total <= sum_vol va)%Q /\
    (forall b, In b va ->
               (forall b', In b' va -> (snd b <= snd b')%Q) ->
               (sum_vol va - snd b < (7 # 10) * total)%Q).
Proof.
  cbv zeta. split.
  - reflexivity.
  - apply (value_area_share_minimal _ 10). reflexivity.
Defined.

(** ** Degenerate batches *)






(** ** Quotes *)

Lemma not_success_iff (j : json) :
  not_success j = true <-> j <> JStr "success"%string.
Proof.
  destruct j; simpl; try (split; [discriminate | trivial]).
  rewrite negb_true_iff. split.
  - intros E H. inversion H; subst. now rewrite String.eqb_refl in E.
  - intro H. apply String.eqb_neq. intro E. apply H. now subst.
Qed.

(** C7. [fetch_quotes] returns the empty mapping, and does not raise, when
    the request or the decoding of its response fails, and when the response
    is an object whose status is not "success". *)
Theorem fetch_quotes_failure_empty (float_of_str : string -> option Q)
  (upstream : string -> reply) (instrument_keys : list string) :
  upstream (String.concat "," instrument_keys) = Failed \/
  (exists fields,
      upstream (String.concat "," instrument_keys) = Body (JObj fields) /\
      dict_get_default String.eqb fields "status"%string JNull <> JStr "success"%string) ->
  fetch_quotes float_of_str upstream instrument_keys = Ret [].
Proof.
  intro H. unfold fetch_quotes.
  destruct instrument_keys as [| k ks] eqn:Ek; [reflexivity |].
  rewrite <- Ek in *. clear Ek.
  destruct H as [-> | (fields & -> & Hs)]; [reflexivity |].
  cbn [py_get bind].
  apply not_success_iff in Hs. now rewrite Hs.
Qed.

Lemma fetch_quotes_failure_empty_witness :
  let no_parse := fun _ : string => @None Q in
  let keys := ["NSE_INDEX|Nifty 50"; "NSE_INDEX|Nifty Bank"]%string in
  fetch_quotes no_parse (fun _ => Failed) keys = Ret [] /\
  fetch_quotes no_parse
    (fun _ => Body (JObj [("status", JStr "error");
                          ("data", JObj [("k", JObj [("last_price", JNum 5)])])]
                         %string))
    keys = Ret [] /\
  fetch_quotes no_parse (fun _ => Body (JObj [])) keys = Ret [].
Proof.
  cbv zeta. split; [| split].
  - apply fetch_quotes_failure_empty. left. reflexivity.
  - apply fetch_quotes_failure_empty. right. eexists. split.
    + reflexivity.
    + simpl. discriminate.
  - apply fetch_quotes_failure_empty. right. eexists. split.
    + reflexivity.
    + simpl. discriminate.
Defined.

Lemma dict_get_set_str {V : Type} (d : list (string * V)) (k k' : string)
  (v : V) :
  dict_get String.eqb (dict_set String.eqb d k v) k'
  = if String.eqb k k' then Some v else dict_get String.eqb d k'.
Proof.
  induction d as [| [k0 v0] d IH]; simpl.
  - reflexivity.
  - destruct (String.eqb k0 k) eqn:E0; simpl.
    + apply String.eqb_eq in E0. subst k0.
      now destruct (String.eqb k k').
    + rewrite IH.
      destruct (String.eqb k0 k') eqn:E1; trivial.
      apply String.eqb_eq in E1. subst k0.
      now rewrite String.eqb_sym, E0.
Qed.

Lemma dict_get_absent {V : Type} (d : list (string * V)) (k : string) :
  ~ In k (map fst d) -> dict_get String.eqb d k = None.
Proof.
  induction d as [| [k0 v0] d IH]; simpl; intro H; [reflexivity |].
  destruct (String.eqb k0 k) eqn:E.
  - apply String.eqb_eq in E. exfalso. apply H. now left.
  - apply IH. intro Hin. apply H. now right.
Qed.

Section QuoteEntries.

Variable float_of_str : string -> option Q.

(** The volume the loop stores for an entry: [float(vol or 0)]. *)
Let stored_volume (q : json) : Q :=
  match field q "volume"%string with
  | JNum v => if Qeq_bool v 0 then 0 else v
  | _ => 0
  end.

Lemma stored_volume_eq (q : json) : (stored_volume q == entry_volume q)%Q.
Proof.
  unfold stored_volume, entry_volume.
  destruct (field q "volume"%string); simpl; try reflexivity.
  destruct (Qeq_bool x 0) eqn:E; [| reflexivity].
  apply Qeq_bool_iff in E. now symmetry.
Qed.

Lemma get_volume_default (fields : list (string * json)) :
  let vol := dict_get_default String.eqb fields "volume"%string (JNum 0) in
  num_or_null (dict_get_default String.eqb fields "volume"%string JNull) = true ->
  py_float float_of_str (py_or vol (JNum 0))
  = Ret (stored_volume (JObj fields)).
Proof.
  unfold stored_volume, field, dict_get_default.
  destruct (dict_get String.eqb fields "volume"%string) as [j |]; simpl.
  - destruct j; simpl; try discriminate; intros _.
    + reflexivity.
    + unfold py_or. simpl. now destruct (Qeq_bool x 0).
  - reflexivity.
Qed.

(** One pass of the loop body on a well-shaped entry. *)
Lemma quote_entry_ok (out : list (string * (Q * Q))) (key : string)
  (q : json) :
  entry_ok q = true ->
  quote_entry float_of_str out key q
  = Ret (match entry_price q with
         | Some p => dict_set String.eqb out key (p, stored_volume q)
         | None => out
         end).
Proof.
  destruct q as [| | | | | fields]; try discriminate.
  unfold entry_ok. rewrite !andb_true_iff. intros [[Hl Ho] Hv].
  pose proof (get_volume_default fields Hv) as Hvol. cbv zeta in Hvol.
  unfold quote_entry, entry_price.
  cbn [py_get bind field] in *.
  destruct (dict_get_default String.eqb fields "last_price"%string JNull)
    as [| | p | | |] eqn:El; try discriminate; cbn [is_none number_of bind].
  - destruct (dict_get_default String.eqb fields "ohlc"%string JNull)
      as [| | | | | o] eqn:Eo; try discriminate.
    + cbn [py_or truthy py_get bind dict_get_default dict_get is_none
             number_of field]. reflexivity.
    + assert (Hc : py_get (py_or (JObj o) (JObj [])) "close"%string JNull
                   = Ret (dict_get_default String.eqb o "close"%string JNull)).
      { unfold py_or. destruct o; reflexivity. }
      rewrite Hc. cbn [bind field].
      destruct (dict_get_default String.eqb o "close"%string JNull)
        as [| | c | | |]; try discriminate; cbn [is_none number_of].
      * reflexivity.
      * cbn [py_float bind]. rewrite Hvol. reflexivity.
  - cbn [py_float bind]. rewrite Hvol. reflexivity.
Qed.

Lemma quote_entries_ok (items : list (string * json)) :
  NoDup (map fst items) ->
  Forall (fun e => entry_ok (snd e) = true) items ->
  forall out, exists out',
    quote_entries float_of_str out items = Ret out' /\
    forall key,
      same_quote (dict_get String.eqb out' key)
        (match dict_get String.eqb items key with
         | Some q => match entry_quote q with
                     | Some pv => Some pv
                     | None => dict_get String.eqb out key
                     end
         | None => dict_get String.eqb out key
         end).
Proof.
  induction items as [| [k q] rest IH]; intros Hnd Hok out.
  - exists out. split; [reflexivity |]. intro key. simpl.
    destruct (dict_get String.eqb out key) as [[p v] |]; simpl; trivial.
    split; reflexivity.
  - cbn [map fst] in Hnd. apply NoDup_cons_iff in Hnd.
    destruct Hnd as [Hk Hnd].
    apply Forall_cons_iff in Hok. destruct Hok as [Hq Hok]. cbn [snd] in Hq.
    cbn [quote_entries]. rewrite (quote_entry_ok out k q Hq). cbn [bind].
    set (out1 := match entry_price q with
                 | Some p => dict_set String.eqb out k (p, stored_volume q)
                 | None => out
                 end).
    destruct (IH Hnd Hok out1) as (out' & Eo & Hall).
    exists out'. split; [exact Eo |]. intro key.
    specialize (Hall key). cbn [dict_get].
    destruct (String.eqb k key) eqn:Ek.
    + apply String.eqb_eq in Ek. subst key.
      rewrite (dict_get_absent rest k Hk) in Hall.
      unfold entry_quote. subst out1.
      destruct (entry_price q) as [p |]; [| exact Hall].
      rewrite dict_get_set_str, String.eqb_refl in Hall.
      pose proof (stored_volume_eq q) as Hv.
      destruct (dict_get String.eqb out' k) as [[p' v'] |]; simpl in *;
        [| exact Hall].
      destruct Hall as [Hp Hv']. split; [exact Hp |].
      now rewrite Hv', Hv.
    + assert (E1 : dict_get String.eqb out1 key = dict_get String.eqb out key).
      { subst out1. destruct (entry_price q); [| reflexivity].
        now rewrite dict_get_set_str, Ek. }
      now rewrite E1 in Hall.
Qed.

End QuoteEntries.

(** C10. On a successful response whose entries have the shape of quotes,
    [fetch_quotes] returns a mapping in which every entry of [data] with a
    [last_price] has that price, every entry without one but with an [ohlc]
    close has the close, every entry with neither is absent, and the volume
    is the entry's, or 0 when it is null or absent; nothing else is in the
    mapping. *)
Theorem fetch_quotes_entries (float_of_str : string -> option Q)
  (upstream : string -> reply) (instrument_keys : list string)
  (top items : list (string * json)) :
  instrument_keys <> [] ->
  upstream (String.concat "," instrument_keys) = Body (JObj top) ->
  dict_get String.eqb top "status"%string = Some (JStr "success") ->
  dict_get String.eqb top "data"%string = Some (JObj items) ->
  NoDup (map fst items) ->
  Forall (fun e => entry_ok (snd e) = true) items ->
  exists out,
    fetch_quotes float_of_str upstream instrument_keys = Ret out /\
    forall key,
      same_quote (dict_get String.eqb out key)
        (match dict_get String.eqb items key with
         | Some q => entry_quote q
         | None => None
         end).
Proof.
  intros Hne Hup Hst Hdata Hnd Hok.
  destruct (quote_entries_ok float_of_str items Hnd Hok [])
    as (out & Eo & Hall).
  exists out. split.
  - unfold fetch_quotes.
    destruct instrument_keys as [| k ks] eqn:Ek; [congruence |].
    rewrite <- Ek in *. clear Ek. rewrite Hup.
    unfold py_get, dict_get_default. rewrite Hst, Hdata.
    cbn [bind not_success py_items]. simpl. exact Eo.
  - intro key. specialize (Hall key). cbn [dict_get] in Hall.
    destruct (dict_get String.eqb items key) as [q |]; [| exact Hall].
    now destruct (entry_quote q).
Qed.

Lemma fetch_quotes_entries_witness :
  let items :=
    [("NSE_INDEX|Nifty 50", JObj [("last_price", JNum 24350); ("volume", JNum 7)]);
     ("NSE_INDEX|Nifty Bank",
      JObj [("last_price", JNull); ("ohlc", JObj [("close", JNum 51200)])]);
     ("NSE_FO|1", JObj [("ohlc", JNull); ("volume", JNull)])]%string in
  let top := [("status", JStr "success"); ("data", JObj items)]%string in
  exists out,
    fetch_quotes (fun _ => None) (fun _ => Body (JObj top))
      ["NSE_INDEX|Nifty 50"; "NSE_INDEX|Nifty Bank"; "NSE_FO|1"]%string
    = Ret out /\
    forall key,
      same_quote (dict_get String.eqb out key)
        (match dict_get String.eqb items key with
         | Some q => entry_quote q
         | None => None
         end).
Proof.
  cbv zeta.
  eapply fetch_quotes_entries.
  - discriminate.
  - reflexivity.
  - reflexivity.
  - reflexivity.
  - repeat (constructor; [simpl; intuition discriminate |]). constructor.
  - repeat constructor.
Defined.

(** ** Strikes *)

Lemma insert_strike_in (x y : Z) (l : list Z) :
  In y (insert_strike x l) <-> y = x \/ In y l.
Proof.
  induction l as [| z l IH]; simpl.
  - intuition.
  - destruct (x <? z)%Z eqn:E1; [simpl; intuition |].
    destruct (x =? z)%Z eqn:E2.
    + apply Z.eqb_eq in E2. subst z. simpl. intuition.
    + simpl. rewrite IH. intuition.
Qed.

Lemma insert_strike_sorted (x : Z) (l : list Z) :
  StronglySorted Z.lt l -> StronglySorted Z.lt (insert_strike x l).
Proof.
  induction 1 as [| z l Hs IH Hz]; simpl.
  - constructor; constructor.
  - destruct (x <? z)%Z eqn:E1.
    + apply Z.ltb_lt in E1. constructor; [now constructor |].
      constructor; [exact E1 |].
      rewrite Forall_forall in Hz |- *. intros y Hy.
      specialize (Hz y Hy). lia.
    + apply Z.ltb_ge in E1. destruct (x =? z)%Z eqn:E2.
      * now constructor.
      * apply Z.eqb_neq in E2. constructor; [exact IH |].
        apply Forall_forall. intros y Hy. apply insert_strike_in in Hy.
        destruct Hy as [-> | Hy]; [lia |].
        rewrite Forall_forall in Hz. now apply Hz.
Qed.

Lemma sorted_set_in (y : Z) (l : list Z) : In y (sorted_set l) <-> In y l.
Proof.
  induction l as [| x l IH]; simpl; [tauto |].
  rewrite insert_strike_in, IH. intuition.
Qed.

Lemma sorted_set_sorted (l : list Z) : StronglySorted Z.lt (sorted_set l).
Proof.
  induction l as [| x l IH]; simpl.
  - constructor.
  - now apply insert_strike_sorted.
Qed.

Lemma available_strikes_in (contracts : list contract) (opt_type : string)
  (s : Z) :
  In s (available_strikes contracts opt_type) <->
  exists c, In c contracts /\ has_type opt_type c = true /\ strike_of c = s.
Proof.
  unfold available_strikes, subset_of.
  rewrite sorted_set_in, in_map_iff. split.
  - intros (c & Hs & Hc). apply filter_In in Hc. now exists c.
  - intros (c & Hc & Ht & Hs). exists c. split; [exact Hs |].
    apply filter_In. now split.
Qed.

Lemma sorted_nth_lt (l : list Z) :
  StronglySorted Z.lt l ->
  forall i j, (i < j)%nat -> (j < List.length l)%nat ->
              (nth i l 0 < nth j l 0)%Z.
Proof.
  induction 1 as [| x l Hs IH Hx]; intros i j Hij Hj; simpl in Hj; [lia |].
  destruct j as [| j]; [lia |]. destruct i as [| i]; simpl.
  - rewrite Forall_forall in Hx. apply Hx. apply nth_In. lia.
  - apply IH; lia.
Qed.

(** ** The ATM index *)

Lemma fold_minZ_spec {A : Type} (key : A -> Z) (rest : list A) :
  forall x,
    let m := fold_left (fun best y => if (key y <? key best)%Z then y else best)
                       rest x in
    (m = x \/ In m rest) /\
    (key m <= key x)%Z /\ (forall y, In y rest -> (key m <= key y)%Z).
Proof.
  induction rest as [| y rest IH]; intro x; simpl.
  - repeat split; [now left | lia | contradiction].
  - destruct (IH (if (key y <? key x)%Z then y else x)) as (Hin & Hx & Hall).
    destruct (key y <? key x)%Z eqn:E;
      [apply Z.ltb_lt in E | apply Z.ltb_ge in E].
    + repeat split.
      * destruct Hin as [Hm | Hm]; [right; left; now rewrite Hm | now right; right].
      * lia.
      * intros z [<- | Hz]; [exact Hx | now apply Hall].
    + repeat split.
      * destruct Hin as [Hm | Hm]; [now left | now right; right].
      * exact Hx.
      * intros z [<- | Hz]; [lia | now apply Hall].
Qed.

Lemma atm_index_spec (strikes : list Z) (atm : Z) :
  strikes <> [] ->
  (atm_index strikes atm < List.length strikes)%nat /\
  forall j, (j < List.length strikes)%nat ->
            (Z.abs (nth (atm_index strikes atm) strikes 0 - atm)
             <= Z.abs (nth j strikes 0 - atm))%Z.
Proof.
  intro Hne. unfold atm_index, Py.min_byZ.
  destruct strikes as [| s0 rest]; [congruence |].
  cbn [List.length seq].
  set (key := fun i : nat => Z.abs (nth i (s0 :: rest) 0%Z - atm)).
  destruct (fold_minZ_spec key (seq 1 (List.length rest)) 0%nat)
    as (Hin & H0 & Hall).
  set (m := fold_left _ _ _) in *.
  split.
  - destruct Hin as [-> | Hin]; [lia |]. apply in_seq in Hin. lia.
  - intros j Hj. destruct j as [| j]; [exact H0 |].
    apply (Hall (S j)). apply in_seq. lia.
Qed.

(** ** Slices and the window *)

Lemma in_firstn {A : Type} (x : A) (n : nat) (l : list A) :
  In x (firstn n l) -> In x l.
Proof.
  revert l. induction n as [| n IH]; intros [| y l]; simpl; try tauto.
  intros [-> | H]; [now left | right; now apply IH].
Qed.

Lemma in_skipn {A : Type} (x : A) (n : nat) (l : list A) :
  In x (skipn n l) -> In x l.
Proof.
  revert l. induction n as [| n IH]; intros [| y l]; simpl; try tauto.
  intro H. right. now apply IH.
Qed.

Lemma slice_in {A : Type} (x : A) (l : list A) (start stop : Z) :
  In x (Py.slice l start stop) -> In x l.
Proof.
  unfold Py.slice. intro H. apply in_firstn in H. now apply in_skipn in H.
Qed.

Lemma slice_inner {A : Type} (l : list A) (lo hi : Z) :
  (0 <= lo)%Z -> (lo <= hi)%Z -> (hi <= Z.of_nat (List.length l))%Z ->
  Py.slice l lo hi
  = firstn (Z.to_nat hi - Z.to_nat lo) (skipn (Z.to_nat lo) l).
Proof.
  intros H0 H1 H2. unfold Py.slice, Py.slice_bound.
  assert (E1 : (lo <? 0)%Z = false) by (apply Z.ltb_ge; lia).
  assert (E2 : (hi <? 0)%Z = false) by (apply Z.ltb_ge; lia).
  rewrite E1, E2. rewrite !Z.min_l by lia. f_equal. lia.
Qed.

Lemma segment_props {A : Type} (l : list A) (lo hi : nat) :
  (lo <= hi)%nat -> (hi <= List.length l)%nat ->
  let seg := firstn (hi - lo) (skipn lo l) in
  List.length seg = (hi - lo)%nat /\
  l = firstn lo l ++ seg ++ skipn hi l /\
  forall i d, (lo <= i)%nat -> (i < hi)%nat -> In (nth i l d) seg.
Proof.
  intros H1 H2 seg.
  assert (Hlen : List.length seg = (hi - lo)%nat).
  { unfold seg. rewrite length_firstn, length_skipn. lia. }
  split; [exact Hlen |]. split.
  - unfold seg.
    rewrite <- (firstn_skipn lo l) at 1. f_equal.
    rewrite <- (firstn_skipn (hi - lo) (skipn lo l)) at 1. f_equal.
    rewrite skipn_skipn. f_equal. lia.
  - intros i d Hi1 Hi2.
    assert (E : nth i l d = nth (i - lo) seg d).
    { unfold seg. rewrite nth_firstn.
      assert (Hb : (i - lo <? hi - lo)%nat = true) by (apply Nat.ltb_lt; lia).
      rewrite Hb, nth_skipn. f_equal. lia. }
    rewrite E. apply nth_In. lia.
Qed.

Lemma window_segment (strikes : list Z) (atm n : Z) :
  strikes <> [] -> (0 <= n)%Z ->
  let idx := atm_index strikes atm in
  let lo := Z.to_nat (Z.max 0 (Z.of_nat idx - n)) in
  let hi := Z.to_nat (Z.min (Z.of_nat (List.length strikes) - 1)
                            (Z.of_nat idx + n) + 1) in
  window strikes atm n = firstn (hi - lo) (skipn lo strikes) /\
  (lo <= idx)%nat /\ (idx < hi)%nat /\ (hi <= List.length strikes)%nat /\
  (Z.of_nat (hi - lo) <= 2 * n + 1)%Z.
Proof.
  intros Hne Hn idx lo hi.
  destruct (atm_index_spec strikes atm Hne) as [Hidx _]. fold idx in Hidx.
  split.
  - unfold window. fold idx. apply slice_inner; lia.
  - unfold lo, hi. lia.
Qed.

(** ** Selection *)

Lemma has_type_iff (opt_type : string) (c : contract) :
  has_type opt_type c = true <-> instrument_type c = Some opt_type.
Proof.
  unfold has_type. destruct (instrument_type c) as [t |].
  - rewrite String.eqb_eq. split; [now intros -> | now intros [= ->]].
  - split; discriminate.
Qed.

Lemma chosen_in_available (contracts : list contract) (opt_type : string)
  (atm n s : Z) :
  In s (chosen_strikes contracts opt_type atm n) ->
  In s (available_strikes contracts opt_type).
Proof.
  unfold chosen_strikes.
  destruct (available_strikes contracts opt_type) as [| s0 l]; [tauto |].
  unfold window. apply slice_in.
Qed.

Lemma first_match_found (contracts : list contract) (opt_type : string)
  (s : Z) :
  In s (available_strikes contracts opt_type) ->
  exists p, first_match (subset_of contracts opt_type) s = [p] /\
            from_contract contracts opt_type s p.
Proof.
  intro Hs. apply available_strikes_in in Hs.
  destruct Hs as (c & Hc & Ht & Hsc).
  unfold first_match.
  destruct (find (fun c0 => (strike_of c0 =? s)%Z) (subset_of contracts opt_type))
    as [c' |] eqn:Ef.
  - apply find_some in Ef. destruct Ef as [Hin Heq].
    apply filter_In in Hin. destruct Hin as [Hin Ht'].
    apply Z.eqb_eq in Heq. apply has_type_iff in Ht'.
    eexists. split; [reflexivity |]. now exists c'.
  - exfalso.
    assert (Hin : In c (subset_of contracts opt_type))
      by (apply filter_In; now split).
    pose proof (find_none _ _ Ef c Hin) as Hf. simpl in Hf.
    apply Z.eqb_neq in Hf. contradiction.
Qed.

(** One pair per chosen strike, in the order of the strikes, each taken from
    a contract of the type with that strike. *)
Lemma pick_for_type_pairs (contracts : list contract) (atm n : Z)
  (opt_type : string) :
  Forall2 (from_contract contracts opt_type)
          (chosen_strikes contracts opt_type atm n)
          (pick_for_type contracts atm n opt_type).
Proof.
  unfold pick_for_type.
  pose proof (chosen_in_available contracts opt_type atm n) as Hsub.
  destruct (subset_of contracts opt_type) as [| c0 sub] eqn:Esub.
  - unfold chosen_strikes, available_strikes. rewrite Esub. constructor.
  - rewrite <- Esub. clear Esub.
    induction (chosen_strikes contracts opt_type atm n) as [| s l IH].
    + constructor.
    + cbn [flat_map].
      destruct (first_match_found contracts opt_type s) as (p & -> & Hp).
      { apply Hsub. now left. }
      constructor; [exact Hp |]. apply IH. intros s' Hs'. apply Hsub.
      now right.
Qed.

(** The list [results] when the loops are done: first the pairs selected
    for "CE", each from a call contract, then the pairs selected for "PE",
    each from a put contract; in each part one pair per chosen strike, in
    ascending order of the strikes. *)
Lemma results_calls_precede_puts (contracts : list contract) (atm n : Z) :
  let calls := pick_for_type contracts atm n "CE" in
  let puts := pick_for_type contracts atm n "PE" in
  results_built contracts atm n = calls ++ puts /\
  Forall2 (from_contract contracts "CE")
          (chosen_strikes contracts "CE" atm n) calls /\
  Forall2 (from_contract contracts "PE")
          (chosen_strikes contracts "PE" atm n) puts /\
  Forall (fun p => exists c, In c contracts /\
                             instrument_type c = Some "CE"%string /\
                             p = (instrument_key c, trading_symbol c)) calls /\
  Forall (fun p => exists c, In c contracts /\
                             instrument_type c = Some "PE"%string /\
                             p = (instrument_key c, trading_symbol c)) puts.
Proof.
  cbv zeta.
  pose proof (pick_for_type_pairs contracts atm n "CE") as Hc.
  pose proof (pick_for_type_pairs contracts atm n "PE") as Hp.
  assert (Hforall : forall ty l r,
             Forall2 (from_contract contracts ty) l r ->
             Forall (fun p => exists c, In c contracts /\
                                        instrument_type c = Some ty /\
                                        p = (instrument_key c, trading_symbol c))
                    r).
  { intros ty l r H. induction H as [| s p l r (c & H1 & H2 & _ & H3) _ IH];
      constructor; trivial. now exists c. }
  split; [| repeat split; eauto].
  unfold results_built. cbn [flat_map]. now rewrite app_nil_r.
Qed.

(** C2 does not hold of the code.  With one call and one put at the ATM
    strike the loops build the list of the call's pair followed by the
    put's pair, but the function ends in a bare [return], so the caller
    gets [None] and not that list; it gets [None] on every input. *)
Theorem bare_return_gives_none :
  (let cs := [mkContract (Some "CE"%string) 24300 "NSE_FO|1" "NIFTY 24300 CE";
              mkContract (Some "PE"%string) 24300 "NSE_FO|2" "NIFTY 24300 PE"] in
   results_built cs 24300 0
   = [("NSE_FO|1", "NIFTY 24300 CE"); ("NSE_FO|2", "NIFTY 24300 PE")]%string /\
   pick_atm_plus_minus cs 24300 0 = None) /\
  (forall contracts atm n, pick_atm_plus_minus contracts atm n = None).
Proof.
  split; [split; reflexivity | reflexivity].
Qed.

(** C5. For a count [n >= 0] per side and either option type, the chosen
    strikes are at most [2n+1], they are a contiguous run of the available
    strikes (the distinct strikes of the type in ascending order), they
    contain a strike nearest to the ATM value when there is any strike, and
    the result holds one pair per chosen strike. *)
Theorem atm_window_contiguous (contracts : list contract)
  (opt_type : string) (atm n : Z) :
  (0 <= n)%Z ->
  let strikes := available_strikes contracts opt_type in
  let chosen := chosen_strikes contracts opt_type atm n in
  StronglySorted Z.lt strikes /\
  (forall s, In s strikes <->
             exists c, In c contracts /\ has_type opt_type c = true /\
                       strike_of c = s) /\
  (Z.of_nat (List.length chosen) <= 2 * n + 1)%Z /\
  (exists before after, strikes = before ++ chosen ++ after) /\
  (strikes <> [] ->
   exists s, In s chosen /\
             forall s', In s' strikes ->
                        (Z.abs (s - atm) <= Z.abs (s' - atm))%Z) /\
  List.length (pick_for_type contracts atm n opt_type) = List.length chosen.
Proof.
  intros Hn strikes chosen.
  split; [apply sorted_set_sorted |].
  split; [intro s; apply available_strikes_in |].
  assert (Hlen : List.length (pick_for_type contracts atm n opt_type)
                 = List.length chosen).
  { symmetry. eapply Forall2_length. apply pick_for_type_pairs. }
  unfold chosen, chosen_strikes. fold strikes.
  destruct strikes as [| s0 l] eqn:Es.
  - repeat split; trivial.
    + cbn [List.length]. lia.
    + now exists [], [].
    + congruence.
    + unfold chosen, chosen_strikes in Hlen. fold strikes in Hlen.
      now rewrite Es in Hlen.
  - assert (Hne : s0 :: l <> []) by discriminate.
    destruct (window_segment (s0 :: l) atm n Hne Hn)
      as (Hw & Hlo & Hhi & Hmax & Hcnt).
    destruct (atm_index_spec (s0 :: l) atm Hne) as [Hidx Hmin].
    set (idx := atm_index (s0 :: l) atm) in *.
    set (lo := Z.to_nat (Z.max 0 (Z.of_nat idx - n))) in *.
    set (hi := Z.to_nat (Z.min (Z.of_nat (List.length (s0 :: l)) - 1)
                               (Z.of_nat idx + n) + 1)) in *.
    destruct (segment_props (s0 :: l) lo hi) as (Hl & Hsplit & Hin);
      [lia | exact Hmax |].
    rewrite Hw. repeat split.
    + rewrite Hl. exact Hcnt.
    + eexists. eexists. exact Hsplit.
    + intros _. exists (nth idx (s0 :: l) 0%Z). split.
      * apply Hin; lia.
      * intros s' Hs'. destruct (In_nth _ _ 0%Z Hs') as (j & Hj & <-).
        now apply Hmin.
    + unfold chosen, chosen_strikes in Hlen. fold strikes in Hlen.
      rewrite Es, Hw in Hlen. exact Hlen.
Qed.

Lemma atm_window_contiguous_witness :
  let cs := [mkContract (Some "CE"%string) 24300 "NSE_FO|1" "NIFTY 24300 CE";
             mkContract (Some "PE"%string) 24300 "NSE_FO|2" "NIFTY 24300 PE";
             mkContract (Some "CE"%string) 24400 "NSE_FO|3" "NIFTY 24400 CE";
             mkContract (Some "CE"%string) 24350 "NSE_FO|4" "NIFTY 24350 CE";
             mkContract (Some "CE"%string) 24250 "NSE_FO|5" "NIFTY 24250 CE";
             mkContract (Some "CE"%string) 24200 "NSE_FO|6" "NIFTY 24200 CE"] in
  (0 <= 1)%Z /\
  chosen_strikes cs "CE" 24350 1 = [24300; 24350; 24400]%Z /\
  let strikes := available_strikes cs "CE" in
  let chosen := chosen_strikes cs "CE" 24350 1 in
  StronglySorted Z.lt strikes /\
  (forall s, In s strikes <->
             exists c, In c cs /\ has_type "CE" c = true /\ strike_of c = s) /\
  (Z.of_nat (List.length chosen) <= 2 * 1 + 1)%Z /\
  (exists before after, strikes = before ++ chosen ++ after) /\
  (strikes <> [] ->
   exists s, In s chosen /\
             forall s', In s' strikes ->
                        (Z.abs (s - 24350) <= Z.abs (s' - 24350))%Z) /\
  List.length (pick_for_type cs 24350 1 "CE") = List.length chosen.
Proof.
  cbv zeta. split; [lia |]. split; [reflexivity |].
  apply (atm_window_contiguous _ "CE" 24350 1). lia.
Defined.

(** C6. With [n >= 0]: when no available strike of the type is above the
    ATM value, the chosen strikes are the last [n+1] available strikes (all
    of them if there are fewer), the window ending at the highest strike;
    when none is below it, they are the first [n+1] (all of them if there
    are fewer).  The selection is a total function, nothing is indexed out
    of range. *)
Theorem atm_window_clips (contracts : list contract) (opt_type : string)
  (atm n : Z) :
  (0 <= n)%Z ->
  let strikes := available_strikes contracts opt_type in
  let chosen := chosen_strikes contracts opt_type atm n in
  ((forall s, In s strikes -> (s <= atm)%Z) ->
   chosen = skipn (List.length strikes - (Z.to_nat n + 1)) strikes) /\
  ((forall s, In s strikes -> (atm <= s)%Z) ->
   chosen = firstn (Z.to_nat n + 1) strikes).
Proof.
  intros Hn strikes chosen.
  pose proof (sorted_set_sorted
                (map strike_of (subset_of contracts opt_type))) as Hsorted.
  fold (available_strikes contracts opt_type) in Hsorted. fold strikes in Hsorted.
  unfold chosen, chosen_strikes. fold strikes.
  destruct strikes as [| s0 l] eqn:Es.
  - split; intros _; [now rewrite skipn_nil | now rewrite firstn_nil].
  - assert (Hne : s0 :: l <> []) by discriminate.
    destruct (window_segment (s0 :: l) atm n Hne Hn)
      as (Hw & Hlo & Hhi & Hmax & Hcnt).
    destruct (atm_index_spec (s0 :: l) atm Hne) as [Hidx Hmin].
    set (idx := atm_index (s0 :: l) atm) in *.
    set (len := List.length (s0 :: l)) in *.
    rewrite Hw. split; intro Hall.
    + assert (Hi : idx = (len - 1)%nat).
      { destruct (Nat.eq_dec idx (len - 1)) as [E | N]; [exact E | exfalso].
        pose proof (sorted_nth_lt (s0 :: l) Hsorted idx (len - 1)) as Hlt.
        fold len in Hlt.
        assert (H1 : (nth idx (s0 :: l) 0 <= atm)%Z)
          by (apply Hall, nth_In; exact Hidx).
        assert (H2 : (nth (len - 1) (s0 :: l) 0 <= atm)%Z)
          by (apply Hall, nth_In; fold len; lia).
        specialize (Hmin (len - 1)%nat). lia. }
      rewrite Hi.
      replace (Z.to_nat (Z.min (Z.of_nat len - 1) (Z.of_nat (len - 1) + n) + 1))
        with len by lia.
      replace (Z.to_nat (Z.max 0 (Z.of_nat (len - 1) - n)))
        with (len - (Z.to_nat n + 1))%nat by lia.
      apply firstn_all2. rewrite length_skipn. fold len. lia.
    + assert (Hi : idx = 0%nat).
      { destruct (Nat.eq_dec idx 0) as [E | N]; [exact E | exfalso].
        pose proof (sorted_nth_lt (s0 :: l) Hsorted 0 idx) as Hlt.
        fold len in Hlt.
        assert (H1 : (atm <= nth idx (s0 :: l) 0)%Z)
          by (apply Hall, nth_In; exact Hidx).
        assert (H2 : (atm <= nth 0 (s0 :: l) 0)%Z)
          by (apply Hall, nth_In; fold len; lia).
        specialize (Hmin 0%nat). lia. }
      rewrite Hi.
      replace (Z.to_nat (Z.max 0 (Z.of_nat 0 - n))) with 0%nat by lia.
      rewrite Nat.sub_0_r. cbn [skipn].
      destruct (Nat.le_gt_cases (Z.to_nat n + 1) len) as [L | G].
      * f_equal. lia.
      * rewrite !firstn_all2; trivial; fold len; lia.
Qed.

Lemma atm_window_clips_witness :
  let cs := [mkContract (Some "CE"%string) 24300 "NSE_FO|1" "NIFTY 24300 CE";
             mkContract (Some "PE"%string) 24300 "NSE_FO|2" "NIFTY 24300 PE";
             mkContract (Some "CE"%string) 24400 "NSE_FO|3" "NIFTY 24400 CE";
             mkContract (Some "CE"%string) 24350 "NSE_FO|4" "NIFTY 24350 CE";
             mkContract (Some "CE"%string) 24250 "NSE_FO|5" "NIFTY 24250 CE"] in
  (0 <= 1)%Z /\
  (forall s, In s (available_strikes cs "CE") -> (s <= 25000)%Z) /\
  chosen_strikes cs "CE" 25000 1
  = skipn (List.length (available_strikes cs "CE") - (Z.to_nat 1 + 1))
          (available_strikes cs "CE") /\
  (forall s, In s (available_strikes cs "CE") -> (20000 <= s)%Z) /\
  chosen_strikes cs "CE" 20000 1
  = firstn (Z.to_nat 1 + 1) (available_strikes cs "CE").
Proof.
  cbv zeta.
  assert (Hhi : forall s,
             In s [24250; 24300; 24350; 24400]%Z -> (s <= 25000)%Z)
    by (simpl; intros s H; lia).
  assert (Hlo : forall s,
             In s [24250; 24300; 24350; 24400]%Z -> (20000 <= s)%Z)
    by (simpl; intros s H; lia).
  split; [lia |]. split; [exact Hhi |]. split; [| split; [exact Hlo |]].
  - apply (atm_window_clips _ "CE" 25000 1); [lia | exact Hhi].
  - apply (atm_window_clips _ "CE" 20000 1); [lia | exact Hlo].
Defined.

(** ** Trapped Sellers Buy *)

(** C9. With a current profile and a previous price, Trapped Sellers Buy
    fires exactly when the previous price is strictly below VAL and the
    current price is at or above VAL; with VAL = 100 it fires on 99 -> 101
    and not on 101 -> 102. *)
Theorem tsb_fires_iff :
  (forall (mp : MarketProfile) (prev cur : Q),
      trapped_sellers_buy (Some mp) (Some prev) cur = true <->
      (prev < val mp /\ val mp <= cur)%Q) /\
  (let mp := {| poc := 110; vah := 120; val := 100;
                high := None; low := None |} in
   trapped_sellers_buy (Some mp) (Some 99) 101 = true /\
   trapped_sellers_buy (Some mp) (Some 101) 102 = false).
Proof.
  split.
  - intros mp prev cur. unfold trapped_sellers_buy.
    rewrite andb_true_iff, Qltb_lt, Qle_bool_iff. tauto.
  - split; reflexivity.
Qed.

(** ** The model at work *)

(** A zero bucket width raises on the first row that has a close. *)
Example zero_bucket_width_raises :
  build_market_profile
    [Full (mkCandle "09:15" None None None (Some 101) 5)] 0
  = Raise ZeroDivisionError.
Proof. reflexivity. Qed.

(** Buckets of equal volume: the POC is the one met first, and the value
    area takes the buckets in that order. *)
Example poc_tie_first_bucket :
  build_market_profile
    [Full (mkCandle "09:15" None (Some 122) (Some 118) (Some 121) 1);
     Full (mkCandle "09:16" None (Some 112) (Some 98) (Some 99) 1);
     Full (mkCandle "09:17" None None None (Some 111) 1);
     Full (mkCandle "09:18" None None None (Some 132) 1)] 10
  = Ret (Some {| poc := 120; vah := 120; val := 100;
                 high := Some 122; low := Some 98 |}).
Proof. reflexivity. Qed.

(** A decoded body that is not an object has no [get]. *)
Example non_object_body_raises :
  fetch_quotes (fun _ => None) (fun _ => Body (JArr [])) ["NSE_FO|1"%string]
  = Raise AttributeError.
Proof. reflexivity. Qed.

Example quotes_of_success_response :
  fetch_quotes (fun _ => None)
    (fun _ => Body (JObj
       [("status", JStr "success");
        ("data", JObj
           [("NSE_INDEX|Nifty 50",
             JObj [("last_price", JNum 24350); ("volume", JNum 7)]);
            ("NSE_INDEX|Nifty Bank",
             JObj [("last_price", JNull);
                   ("ohlc", JObj [("close", JNum 51200)])]);
            ("NSE_FO|1", JObj [("ohlc", JNull); ("volume", JNull)])])]%string))
    ["NSE_INDEX|Nifty 50"; "NSE_INDEX|Nifty Bank"; "NSE_FO|1"]%string
  = Ret [("NSE_INDEX|Nifty 50"%string, (24350, 7));
         ("NSE_INDEX|Nifty Bank"%string, (51200, 0))].
Proof. reflexivity. Qed.

(** Two strikes equally near the ATM value: the lower one is the centre. *)
Example atm_tie_lower_strike :
  atm_index [24300; 24350; 24400]%Z 24325 = 0%nat /\
  window [24300; 24350; 24400]%Z 24325 0 = [24300]%Z.
Proof. split; reflexivity. Qed.

Example rounding_examples :
  round_nifty_strike (2437490 # 100) = 24350%Z /\
  round_nifty_strike 24375 = 24400%Z /\
  round_nifty_strike 24325 = 24300%Z /\
  round_banknifty_strike 51250 = 51200%Z /\
  round_banknifty_strike (5125001 # 100) = 51300%Z.
Proof. repeat split; reflexivity. Qed.

(* ================================================================== *)
(** * Further properties *)

(** ** Rounding: distance, fixed points, monotonicity *)

Lemma round_compat (x y : Q) : (x == y)%Q -> Py.round x = Py.round y.
Proof.
  intro H. unfold Py.round.
  rewrite (Qfloor_comp x y H).
  assert (E : (x - inject_Z (Qfloor y) ?= 1 # 2)%Q
              = (y - inject_Z (Qfloor y) ?= 1 # 2)%Q).
  { apply Qcompare_comp; [rewrite H |]; reflexivity. }
  now rewrite E.
Qed.

Lemma round_within_half (x : Q) :
  (inject_Z (Py.round x) - (1 # 2) <= x /\
   x <= inject_Z (Py.round x) + (1 # 2))%Q.
Proof.
  destruct (round_cases x) as (Hlo & Hhi & [[Hr H] | [Hr H]]); split; lra.
Qed.

Lemma round_monotone (x y : Q) :
  (x <= y)%Q -> (Py.round x <= Py.round y)%Z.
Proof.
  intro Hxy.
  destruct (Z_le_gt_dec (Py.round x) (Py.round y)) as [L | G]; [exact L |].
  assert (G' : (Py.round y + 1 <= Py.round x)%Z) by lia.
  rewrite Zle_Qle, inject_Z_plus in G'. change (inject_Z 1) with 1%Q in G'.
  destruct (round_within_half x) as [Hx1 Hx2].
  destruct (round_within_half y) as [Hy1 Hy2].
  assert (E : (x == y)%Q) by lra.
  rewrite (round_compat x y E). lia.
Qed.

Lemma round_integer (k : Z) : Py.round (inject_Z k) = k.
Proof.
  unfold Py.round. rewrite Qfloor_Z.
  assert (E : (inject_Z k - inject_Z k ?= 1 # 2)%Q = Lt).
  { apply (proj1 (Qlt_alt _ _)). lra. }
  now rewrite E.
Qed.

Lemma scaled_round_props (step : Z) :
  (0 < step)%Z ->
  (forall p q : Q,
      (p <= q)%Q ->
      (Py.round (p / inject_Z step) * step
       <= Py.round (q / inject_Z step) * step)%Z) /\
  (forall k : Z,
      (Py.round (inject_Z (step * k) / inject_Z step) * step
       = step * k)%Z) /\
  (forall p : Q,
      (Qabs (inject_Z (Py.round (p / inject_Z step) * step) - p)
       <= inject_Z step / 2)%Q).
Proof.
  intro Hs.
  assert (Hq : (0 < inject_Z step)%Q) by (now rewrite Zlt_Qlt in Hs).
  split; [| split].
  - intros p q Hpq.
    apply Z.mul_le_mono_nonneg_r; [lia |].
    apply round_monotone.
    apply Qmult_le_compat_r; [exact Hpq |].
    apply Qlt_le_weak, Qinv_lt_0_compat, Hq.
  - intro k.
    rewrite (round_compat (inject_Z (step * k) / inject_Z step) (inject_Z k)).
    + rewrite round_integer. lia.
    + rewrite inject_Z_mult. field. lra.
  - intro p.
    set (y := (p / inject_Z step)%Q).
    assert (Hp : (p == y * inject_Z step)%Q) by (unfold y; field; lra).
    destruct (round_within_half y) as [H1 H2].
    rewrite inject_Z_mult.
    set (r := inject_Z (Py.round y)) in *.
    set (s := inject_Z step) in *.
    assert (Hhalf : (s / 2 == s * (1 # 2))%Q) by (field).
    rewrite Hhalf.
    apply Qabs_case; intro Ha; rewrite Hp in *; nra.
Qed.

(** X1. Both strike roundings are monotone in the price. *)
Theorem strike_rounding_monotone (p q : Q) :
  (p <= q)%Q ->
  (round_nifty_strike p <= round_nifty_strike q)%Z /\
  (round_banknifty_strike p <= round_banknifty_strike q)%Z.
Proof.
  intro H. split.
  - apply (proj1 (scaled_round_props 50 ltac:(lia)) p q H).
  - apply (proj1 (scaled_round_props 100 ltac:(lia)) p q H).
Qed.

Lemma strike_rounding_monotone_witness :
  ((243749 # 10) <= 24375)%Q /\
  (round_nifty_strike (243749 # 10) <= round_nifty_strike 24375)%Z /\
  (round_banknifty_strike (243749 # 10) <= round_banknifty_strike 24375)%Z.
Proof.
  assert (H : ((243749 # 10) <= 24375)%Q) by (intro E; discriminate E).
  split; [exact H |]. apply strike_rounding_monotone. exact H.
Defined.

(** X2. A price that already is a multiple of the increment is returned
    unchanged, and no price is moved by more than half the increment (25
    for the Nifty rounding, 50 for the Bank Nifty one). *)
Theorem strike_rounding_fixed_and_close :
  (forall k : Z, round_nifty_strike (inject_Z (50 * k)) = (50 * k)%Z) /\
  (forall k : Z, round_banknifty_strike (inject_Z (100 * k)) = (100 * k)%Z) /\
  (forall p : Q, (Qabs (inject_Z (round_nifty_strike p) - p) <= 25)%Q) /\
  (forall p : Q, (Qabs (inject_Z (round_banknifty_strike p) - p) <= 50)%Q).
Proof.
  destruct (scaled_round_props 50 ltac:(lia)) as (_ & F50 & D50).
  destruct (scaled_round_props 100 ltac:(lia)) as (_ & F100 & D100).
  repeat split.
  - exact F50.
  - exact F100.
  - intro p. eapply Qle_trans; [exact (D50 p) |]. intro E. discriminate E.
  - intro p. eapply Qle_trans; [exact (D100 p) |]. intro E. discriminate E.
Qed.

(** ** The accumulation loop, step by step *)

Lemma Qeq_bool_key_compat (a k k' : Q) :
  (k == k')%Q -> Qeq_bool a k = Qeq_bool a k'.
Proof.
  intro H.
  destruct (Qeq_bool a k) eqn:E1; destruct (Qeq_bool a k') eqn:E2; trivial.
  - apply Qeq_bool_iff in E1. apply Qeq_bool_neq in E2.
    exfalso. apply E2. now rewrite E1.
  - apply Qeq_bool_iff in E2. apply Qeq_bool_neq in E1.
    exfalso. apply E1. now rewrite E2, H.
Qed.

Lemma dict_get_key_compat (d : list (Q * Q)) (k k' : Q) :
  (k == k')%Q -> dict_get Qeq_bool d k = dict_get Qeq_bool d k'.
Proof.
  intro H. induction d as [| [a v] d IH]; simpl; trivial.
  now rewrite (Qeq_bool_key_compat a k k' H), IH.
Qed.

Lemma dict_get_set_Q (d : list (Q * Q)) (b v k : Q) :
  dict_get Qeq_bool (dict_set Qeq_bool d b v) k
  = if Qeq_bool b k then Some v else dict_get Qeq_bool d k.
Proof.
  induction d as [| [a w] d IH]; simpl; trivial.
  destruct (Qeq_bool a b) eqn:Eab; simpl.
  - apply Qeq_bool_iff in Eab.
    assert (E : Qeq_bool b k = Qeq_bool a k).
    { destruct (Qeq_bool b k) eqn:E1; destruct (Qeq_bool a k) eqn:E2; trivial.
      - apply Qeq_bool_iff in E1. apply Qeq_bool_neq in E2.
        exfalso. apply E2. now rewrite Eab.
      - apply Qeq_bool_iff in E2. apply Qeq_bool_neq in E1.
        exfalso. apply E1. now rewrite <- Eab. }
    rewrite E. now destruct (Qeq_bool a k).
  - rewrite IH. destruct (Qeq_bool a k) eqn:Eak; trivial.
    destruct (Qeq_bool b k) eqn:Ebk; trivial.
    apply Qeq_bool_iff in Eak, Ebk. apply Qeq_bool_neq in Eab.
    exfalso. apply Eab. now rewrite Eak, Ebk.
Qed.

Lemma dict_set_keys (d : list (Q * Q)) (b v p : Q) :
  In p (map fst (dict_set Qeq_bool d b v)) -> In p (map fst d) \/ p = b.
Proof.
  induction d as [| [a w] d IH]; simpl.
  - intros [<- | []]. now right.
  - destruct (Qeq_bool a b); simpl.
    + intros [<- | H]; [left; now left | left; now right].
    + intros [<- | H]; [left; now left |].
      destruct (IH H) as [H' | ->]; [left; now right | now right].
Qed.

(** What one pass of the loop body does. *)
Lemma scan_candle_inv (bs : Q) (st st1 : scan) (r : row) :
  scan_candle bs st r = Ret st1 ->
  (row_close r = None /\ st1 = st) \/
  (exists c close,
      r = Full c /\ c_close c = Some close /\ ~ (bs == 0)%Q /\
      st1 = {| vol_at_price :=
                 dict_set Qeq_bool (vol_at_price st) (bucket_of bs close)
                   (dict_get_default Qeq_bool (vol_at_price st)
                      (bucket_of bs close) 0 + c_vol c)%Q;
               total_vol := (total_vol st + c_vol c)%Q;
               d_high := match c_high c with
                         | Some h => running_max (d_high st) h
                         | None => d_high st
                         end;
               d_low := match c_low c with
                        | Some l => running_min (d_low st) l
                        | None => d_low st
                        end |}).
Proof.
  destruct r as [| c | c]; simpl; [| | discriminate].
  - intros [= <-]. now left.
  - destruct (c_close c) as [close |] eqn:Ec.
    + unfold Py.div. destruct (Qeq_bool bs 0) eqn:Eb; simpl; [discriminate |].
      intros [= <-]. right. exists c, close.
      repeat split; trivial. now apply Qeq_bool_neq.
    + intros [= <-]. now left.
Qed.

(** The loop body finishes only on a row of at most six fields; when it
    leaves the variables as they were, it has passed over the row. *)
Lemma scan_candle_fits (bs : Q) (st st1 : scan) (r : row) :
  scan_candle bs st r = Ret st1 -> at_most_six r = true.
Proof.
  destruct r as [| c | c]; simpl; [reflexivity | reflexivity | discriminate].
Qed.

Lemma scan_candle_closeless (bs : Q) (st st1 : scan) (r : row) :
  scan_candle bs st r = Ret st1 -> row_close r = None -> skipped r = true.
Proof.
  destruct r as [| c | c]; simpl; [reflexivity | | discriminate].
  intros _ ->. reflexivity.
Qed.

Lemma scan_candles_rect (bs : Q) (P : scan -> list row -> scan -> Prop) :
  (forall st, P st [] st) ->
  (forall st r st1 rest st2,
      scan_candle bs st r = Ret st1 ->
      scan_candles bs st1 rest = Ret st2 ->
      P st1 rest st2 -> P st (r :: rest) st2) ->
  forall candles st st',
    scan_candles bs st candles = Ret st' -> P st candles st'.
Proof.
  intros Hnil Hcons. induction candles as [| r rest IH]; intros st st' E.
  - simpl in E. inversion E; subst. apply Hnil.
  - simpl in E.
    destruct (scan_candle bs st r) as [st1 | e] eqn:E1; simpl in E;
      [| discriminate].
    apply (Hcons st r st1 rest st' E1 E). now apply IH.
Qed.

Lemma scan_candles_total (bs : Q) (candles : list row) (st st' : scan) :
  scan_candles bs st candles = Ret st' ->
  (total_vol st' == total_vol st + batch_volume candles)%Q.
Proof.
  revert candles st st'.
  apply (scan_candles_rect bs
           (fun st candles st' =>
              (total_vol st' == total_vol st + batch_volume candles)%Q)).
  - intro st. simpl. lra.
  - intros st r st1 rest st2 E1 _ IH.
    change (batch_volume (r :: rest))
      with (counted_vol r + batch_volume rest)%Q.
    destruct (scan_candle_inv bs st st1 r E1)
      as [[Hc ->] | (c & close & -> & Hc & _ & ->)].
    + assert (Hz : counted_vol r = 0%Q).
      { destruct r as [| c | c]; simpl in *;
          [reflexivity | now rewrite Hc | reflexivity]. }
      rewrite Hz. lra.
    + simpl in IH. simpl counted_vol. rewrite Hc. lra.
Qed.

Lemma scan_candles_buckets (bs : Q) (candles : list row) (st st' : scan) :
  scan_candles bs st candles = Ret st' ->
  forall k,
    (dict_get_default Qeq_bool (vol_at_price st') k 0
     == dict_get_default Qeq_bool (vol_at_price st) k 0
        + bucket_volume bs k candles)%Q.
Proof.
  revert candles st st'.
  apply (scan_candles_rect bs
           (fun st candles st' =>
              forall k,
                (dict_get_default Qeq_bool (vol_at_price st') k 0
                 == dict_get_default Qeq_bool (vol_at_price st) k 0
                    + bucket_volume bs k candles)%Q)).
  - intros st k. simpl. lra.
  - intros st r st1 rest st2 E1 _ IH k. specialize (IH k).
    destruct (scan_candle_inv bs st st1 r E1)
      as [[Hc ->] | (c & close & -> & Hc & _ & ->)].
    + assert (Hz : bucket_volume bs k (r :: rest) = bucket_volume bs k rest).
      { simpl. now rewrite Hc. }
      now rewrite Hz.
    + simpl in IH.
      assert (Hb : bucket_volume bs k (Full c :: rest)
                   = if Qeq_bool (bucket_of bs close) k
                     then (c_vol c + bucket_volume bs k rest)%Q
                     else bucket_volume bs k rest).
      { simpl. now rewrite Hc. }
      rewrite Hb. rewrite IH. unfold dict_get_default at 1.
      rewrite dict_get_set_Q.
      destruct (Qeq_bool (bucket_of bs close) k) eqn:Ek.
      * apply Qeq_bool_iff in Ek.
        unfold dict_get_default.
        rewrite (dict_get_key_compat (vol_at_price st) _ _ Ek). lra.
      * unfold dict_get_default. lra.
Qed.

(** ** Aggregation *)

(** X3. When the accumulation loop of [build_market_profile] finishes, the
    volume it holds for a price is the volume of the rows whose close falls
    in that price's bucket (0 for a price that is no bucket), and
    [total_vol] is the volume of the rows with a close. *)
Theorem bucket_volume_aggregated (candles : list row) (bs : Q) (st : scan) :
  scan_candles bs scan_init candles = Ret st ->
  (total_vol st == batch_volume candles)%Q /\
  forall k,
    (dict_get_default Qeq_bool (vol_at_price st) k 0
     == bucket_volume bs k candles)%Q.
Proof.
  intro E. split.
  - rewrite (scan_candles_total bs candles scan_init st E).
    change (total_vol scan_init) with 0%Q. lra.
  - intro k. rewrite (scan_candles_buckets bs candles scan_init st E k).
    change (dict_get_default Qeq_bool (vol_at_price scan_init) k 0) with 0%Q.
    lra.
Qed.

Lemma bucket_volume_aggregated_witness :
  let batch := [Full (mkCandle "09:15" None None None (Some 101) 5);
                Full (mkCandle "09:16" None None None (Some 118) 3);
                Short;
                Full (mkCandle "09:17" None None None (Some 96) 2)] in
  let st := {| vol_at_price := [(100, 0 + 5 + 2); (120, 0 + 3)];
               total_vol := 0 + 5 + 3 + 2;
               d_high := None; d_low := None |} in
  scan_candles 10 scan_init batch = Ret st /\
  (total_vol st == batch_volume batch)%Q /\
  forall k,
    (dict_get_default Qeq_bool (vol_at_price st) k 0
     == bucket_volume 10 k batch)%Q.
Proof.
  cbv zeta. split; [reflexivity |].
  apply bucket_volume_aggregated. reflexivity.
Defined.

Lemma bucket_volume_perm (bs k : Q) (l l' : list row) :
  Permutation l l' -> (bucket_volume bs k l == bucket_volume bs k l')%Q.
Proof.
  induction 1 as [| r l l' _ IH | r1 r2 l | l1 l2 l3 _ IH1 _ IH2].
  - reflexivity.
  - simpl. destruct (row_close r) as [close |]; [| exact IH].
    destruct r as [| c | c]; [exact IH | | exact IH].
    destruct (Qeq_bool (bucket_of bs close) k); [| exact IH].
    now rewrite IH.
  - simpl.
    destruct (row_close r1) as [c1 |]; destruct (row_close r2) as [c2 |];
      destruct r1 as [| a1 | a1]; destruct r2 as [| a2 | a2];
      try reflexivity;
      try (destruct (Qeq_bool (bucket_of bs c1) k));
      try (destruct (Qeq_bool (bucket_of bs c2) k)); try reflexivity.
    lra.
  - now rewrite IH1.
Qed.

Lemma batch_volume_perm (l l' : list row) :
  Permutation l l' -> (batch_volume l == batch_volume l')%Q.
Proof.
  induction 1 as [| r l l' _ IH | r1 r2 l | l1 l2 l3 _ IH1 _ IH2];
    simpl; lra.
Qed.

Lemma scan_zero_width (bs : Q) (candles : list row) (st st' : scan) :
  (bs == 0)%Q ->
  scan_candles bs st candles = Ret st' ->
  Forall (fun r => skipped r = true) candles.
Proof.
  intro Hb. revert candles st st'.
  apply (scan_candles_rect bs
           (fun _ candles _ => Forall (fun r => skipped r = true) candles)).
  - constructor.
  - intros st r st1 rest st2 E1 _ IH.
    destruct (scan_candle_inv bs st st1 r E1)
      as [[Hc _] | (c & close & _ & _ & Hn & _)].
    + constructor; [| exact IH].
      exact (scan_candle_closeless bs st st1 r E1 Hc).
    + contradiction.
Qed.

Lemma scan_candles_fit (bs : Q) (candles : list row) (st st' : scan) :
  scan_candles bs st candles = Ret st' ->
  Forall (fun r => at_most_six r = true) candles.
Proof.
  revert candles st st'.
  apply (scan_candles_rect bs
           (fun _ candles _ => Forall (fun r => at_most_six r = true) candles)).
  - constructor.
  - intros st r st1 rest st2 E1 _ IH.
    constructor; [exact (scan_candle_fits bs st st1 r E1) | exact IH].
Qed.

(** X4. The order of the candles does not matter to the aggregation: on a
    permuted batch the loop finishes as well, with the same total volume and
    the same volume at every price. *)
Theorem aggregation_order_independent (candles candles' : list row)
  (bs : Q) (st : scan) :
  Permutation candles candles' ->
  scan_candles bs scan_init candles = Ret st ->
  exists st',
    scan_candles bs scan_init candles' = Ret st' /\
    (total_vol st' == total_vol st)%Q /\
    forall k,
      (dict_get_default Qeq_bool (vol_at_price st') k 0
       == dict_get_default Qeq_bool (vol_at_price st) k 0)%Q.
Proof.
  intros Hp E.
  assert (E' : exists st', scan_candles bs scan_init candles' = Ret st').
  { destruct (Qeq_bool bs 0) eqn:Eb.
    - apply Qeq_bool_iff in Eb.
      pose proof (scan_zero_width bs candles scan_init st Eb E) as Hn.
      exists scan_init. apply scan_candles_null.
      exact (Permutation_Forall Hp Hn).
    - apply Qeq_bool_neq in Eb.
      pose proof (scan_candles_fit bs candles scan_init st E) as Hfit.
      destruct (scan_candles_ok bs candles' Eb
                  (Permutation_Forall Hp Hfit) scan_init) as (st' & H & _).
      now exists st'. }
  destruct E' as [st' E']. exists st'. split; [exact E' |].
  destruct (bucket_volume_aggregated candles bs st E) as [T B].
  destruct (bucket_volume_aggregated candles' bs st' E') as [T' B'].
  split.
  - rewrite T, T'. symmetry. now apply batch_volume_perm.
  - intro k. rewrite B, B'. symmetry. now apply bucket_volume_perm.
Qed.

Lemma aggregation_order_independent_witness :
  let a := Full (mkCandle "09:15" None None None (Some 101) 5) in
  let b := Full (mkCandle "09:16" None None None (Some 118) 3) in
  let st := {| vol_at_price := [(100, 0 + 5); (120, 0 + 3)];
               total_vol := 0 + 5 + 3; d_high := None; d_low := None |} in
  Permutation [a; b] [b; a] /\
  scan_candles 10 scan_init [a; b] = Ret st /\
  exists st',
    scan_candles 10 scan_init [b; a] = Ret st' /\
    (total_vol st' == total_vol st)%Q /\
    forall k,
      (dict_get_default Qeq_bool (vol_at_price st') k 0
       == dict_get_default Qeq_bool (vol_at_price st) k 0)%Q.
Proof.
  cbv zeta. split; [apply perm_swap |]. split; [reflexivity |].
  eapply aggregation_order_independent; [apply perm_swap | reflexivity].
Defined.

(** ** Rows the profile ignores *)

Lemma scan_candles_filter (bs : Q) (candles : list row) :
  forall st,
    scan_candles bs st (filter (fun r => negb (skipped r)) candles)
    = scan_candles bs st candles.
Proof.
  induction candles as [| r rest IH]; intro st; [reflexivity |].
  cbn [filter].
  destruct r as [| c | c]; cbn [skipped negb].
  - cbn [scan_candles scan_candle bind]. apply IH.
  - destruct (c_close c) as [close |] eqn:Ec; cbn [negb].
    + cbn [scan_candles].
      destruct (scan_candle bs st (Full c)) as [st1 | e]; cbn [bind];
        [apply IH | reflexivity].
    + cbn [scan_candles scan_candle]. rewrite Ec. cbn [bind]. apply IH.
  - reflexivity.
Qed.

(** X5. Rows with fewer than six fields and six-field rows whose close is
    null do not influence the outcome in any way (not even through their
    high and low): dropping them from the batch gives the same profile, the
    same [None] or the same exception.  A row of more than six fields is
    not one of them: it raises, whatever its close. *)
Theorem skipped_rows_ignored (candles : list row) (bs : Q) :
  build_market_profile (filter (fun r => negb (skipped r)) candles) bs
  = build_market_profile candles bs.
Proof.
  unfold build_market_profile.
  rewrite (scan_candles_filter bs candles scan_init).
  destruct (filter (fun r => negb (skipped r)) candles) as [| r rest] eqn:Ef.
  - destruct candles as [| r' rest']; [reflexivity |].
    rewrite <- (scan_candles_filter bs (r' :: rest') scan_init), Ef.
    reflexivity.
  - destruct candles as [| r' rest']; [discriminate | reflexivity].
Qed.

(** ** Session high and low *)

Lemma running_max_spec (cur : option Q) (h : Q) :
  exists m, running_max cur h = Some m /\
            (m = h \/ cur = Some m) /\ (h <= m)%Q /\
            forall c, cur = Some c -> (c <= m)%Q.
Proof.
  destruct cur as [c |]; simpl.
  - destruct (Py.Qltb c h) eqn:E.
    + apply Qltb_lt in E. exists h. repeat split; [now left | lra |].
      intros c' [= <-]. lra.
    + apply Qltb_ge in E. exists c. repeat split; [now right | exact E |].
      intros c' [= <-]. lra.
  - exists h. repeat split; [now left | lra | discriminate].
Qed.

Lemma running_min_spec (cur : option Q) (l : Q) :
  exists m, running_min cur l = Some m /\
            (m = l \/ cur = Some m) /\ (m <= l)%Q /\
            forall c, cur = Some c -> (m <= c)%Q.
Proof.
  destruct cur as [c |]; simpl.
  - destruct (Py.Qltb l c) eqn:E.
    + apply Qltb_lt in E. exists l. repeat split; [now left | lra |].
      intros c' [= <-]. lra.
    + apply Qltb_ge in E. exists c. repeat split; [now right | exact E |].
      intros c' [= <-]. lra.
  - exists l. repeat split; [now left | lra | discriminate].
Qed.

Lemma scan_candles_high (bs : Q) (candles : list row) (st st' : scan) :
  scan_candles bs st candles = Ret st' ->
  (forall H, d_high st' = Some H ->
             d_high st = Some H \/ In H (counted_highs candles)) /\
  (forall h, d_high st = Some h \/ In h (counted_highs candles) ->
             exists H, d_high st' = Some H /\ (h <= H)%Q).
Proof.
  revert candles st st'.
  apply (scan_candles_rect bs
           (fun st candles st' =>
              (forall H, d_high st' = Some H ->
                         d_high st = Some H \/ In H (counted_highs candles)) /\
              (forall h, d_high st = Some h \/ In h (counted_highs candles) ->
                         exists H, d_high st' = Some H /\ (h <= H)%Q))).
  - intro st. split.
    + intros H E. now left.
    + intros h [E | []]. exists h. split; [exact E | lra].
  - intros st r st1 rest st2 E1 _ [IH1 IH2].
    destruct (scan_candle_inv bs st st1 r E1)
      as [[Hc ->] | (c & close & -> & Hc & _ & ->)].
    + assert (Hz : counted_highs (r :: rest) = counted_highs rest).
      { destruct r as [| c | c]; simpl in *;
          [reflexivity | now rewrite Hc | reflexivity]. }
      rewrite Hz. now split.
    + cbn [d_high] in IH1, IH2.
      destruct (c_high c) as [h0 |] eqn:Eh.
      * assert (Hz : counted_highs (Full c :: rest) = h0 :: counted_highs rest).
        { simpl. now rewrite Hc, Eh. }
        rewrite Hz.
        destruct (running_max_spec (d_high st) h0)
          as (m & Em & Hm & Hh & Hcur).
        rewrite Em in IH1, IH2. split.
        -- intros H EH. destruct (IH1 H EH) as [[= <-] | Hin].
           ++ destruct Hm as [-> | Hm]; [right; now left | now left].
           ++ right. now right.
        -- intros h [E | [<- | Hin]].
           ++ destruct (IH2 m (or_introl eq_refl)) as (H & EH & Hle).
              exists H. split; [exact EH |]. specialize (Hcur h E). lra.
           ++ destruct (IH2 m (or_introl eq_refl)) as (H & EH & Hle).
              exists H. split; [exact EH | lra].
           ++ apply IH2. now right.
      * assert (Hz : counted_highs (Full c :: rest) = counted_highs rest).
        { simpl. now rewrite Hc, Eh. }
        rewrite Hz. now split.
Qed.

Lemma scan_candles_low (bs : Q) (candles : list row) (st st' : scan) :
  scan_candles bs st candles = Ret st' ->
  (forall L, d_low st' = Some L ->
             d_low st = Some L \/ In L (counted_lows candles)) /\
  (forall l, d_low st = Some l \/ In l (counted_lows candles) ->
             exists L, d_low st' = Some L /\ (L <= l)%Q).
Proof.
  revert candles st st'.
  apply (scan_candles_rect bs
           (fun st candles st' =>
              (forall L, d_low st' = Some L ->
                         d_low st = Some L \/ In L (counted_lows candles)) /\
              (forall l, d_low st = Some l \/ In l (counted_lows candles) ->
                         exists L, d_low st' = Some L /\ (L <= l)%Q))).
  - intro st. split.
    + intros L E. now left.
    + intros l [E | []]. exists l. split; [exact E | lra].
  - intros st r st1 rest st2 E1 _ [IH1 IH2].
    destruct (scan_candle_inv bs st st1 r E1)
      as [[Hc ->] | (c & close & -> & Hc & _ & ->)].
    + assert (Hz : counted_lows (r :: rest) = counted_lows rest).
      { destruct r as [| c | c]; simpl in *;
          [reflexivity | now rewrite Hc | reflexivity]. }
      rewrite Hz. now split.
    + cbn [d_low] in IH1, IH2.
      destruct (c_low c) as [l0 |] eqn:El.
      * assert (Hz : counted_lows (Full c :: rest) = l0 :: counted_lows rest).
        { simpl. now rewrite Hc, El. }
        rewrite Hz.
        destruct (running_min_spec (d_low st) l0)
          as (m & Em & Hm & Hl & Hcur).
        rewrite Em in IH1, IH2. split.
        -- intros L EL. destruct (IH1 L EL) as [[= <-] | Hin].
           ++ destruct Hm as [-> | Hm]; [right; now left | now left].
           ++ right. now right.
        -- intros l [E | [<- | Hin]].
           ++ destruct (IH2 m (or_introl eq_refl)) as (L & EL & Hle).
              exists L. split; [exact EL |]. specialize (Hcur l E). lra.
           ++ destruct (IH2 m (or_introl eq_refl)) as (L & EL & Hle).
              exists L. split; [exact EL | lra].
           ++ apply IH2. now right.
      * assert (Hz : counted_lows (Full c :: rest) = counted_lows rest).
        { simpl. now rewrite Hc, El. }
        rewrite Hz. now split.
Qed.

Lemma build_profile_extremes (candles : list row) (bs : Q)
  (mp : MarketProfile) :
  build_market_profile candles bs = Ret (Some mp) ->
  exists st,
    scan_candles bs scan_init candles = Ret st /\
    high mp = d_high st /\ low mp = d_low st.
Proof.
  unfold build_market_profile.
  destruct candles as [| r rest]; [discriminate |].
  destruct (scan_candles bs scan_init (r :: rest)) as [st | e];
    [| discriminate].
  cbn [bind].
  destruct (vol_at_price st) as [| x d]; [discriminate |].
  destruct (Qle_bool (total_vol st) 0); [discriminate |].
  destruct (Py.max_by snd (x :: d)) as [b | e]; [| discriminate].
  cbn [bind].
  destruct (Py.max_by (fun p => p) (map fst (value_area_of st)))
    as [hi | e]; [| discriminate].
  cbn [bind].
  destruct (Py.min_by (fun p => p) (map fst (value_area_of st)))
    as [lo | e]; [| discriminate].
  cbn [bind]. intros [= <-]. exists st. repeat split.
Qed.

(** X6. In a returned profile, [high] is the largest high and [low] the
    smallest low among the rows that have a close: each is the value of
    such a row and bounds all of them; it is [None] only when no such row
    has a high (a low). *)
Theorem profile_high_low (candles : list row) (bs : Q) (mp : MarketProfile) :
  build_market_profile candles bs = Ret (Some mp) ->
  (forall h, In h (counted_highs candles) ->
             exists H, high mp = Some H /\ (h <= H)%Q) /\
  (forall H, high mp = Some H -> In H (counted_highs candles)) /\
  (forall l, In l (counted_lows candles) ->
             exists L, low mp = Some L /\ (L <= l)%Q) /\
  (forall L, low mp = Some L -> In L (counted_lows candles)).
Proof.
  intro Hb.
  destruct (build_profile_extremes candles bs mp Hb) as (st & E & -> & ->).
  destruct (scan_candles_high bs candles scan_init st E) as [H1 H2].
  destruct (scan_candles_low bs candles scan_init st E) as [L1 L2].
  repeat split.
  - intros h Hh. apply H2. now right.
  - intros H EH. destruct (H1 H EH) as [D | Hin]; [discriminate D | exact Hin].
  - intros l Hl. apply L2. now right.
  - intros L EL. destruct (L1 L EL) as [D | Hin]; [discriminate D | exact Hin].
Qed.

Lemma profile_high_low_witness :
  let batch := [Full (mkCandle "09:15" None (Some 104) (Some 98) (Some 101) 5);
                Full (mkCandle "09:16" None (Some 140) (Some 90) None 3);
                Full (mkCandle "09:17" None (Some 119) None (Some 118) 1)] in
  let mp := {| poc := 100; vah := 100; val := 100;
               high := Some 119; low := Some 98 |} in
  build_market_profile batch 10 = Ret (Some mp) /\
  (forall h, In h (counted_highs batch) ->
             exists H, high mp = Some H /\ (h <= H)%Q) /\
  (forall H, high mp = Some H -> In H (counted_highs batch)) /\
  (forall l, In l (counted_lows batch) ->
             exists L, low mp = Some L /\ (L <= l)%Q) /\
  (forall L, low mp = Some L -> In L (counted_lows batch)).
Proof.
  cbv zeta. split; [reflexivity |].
  apply (profile_high_low _ 10). reflexivity.
Defined.

(** ** The prices of a profile *)

Lemma scan_candles_keys (bs : Q) (candles : list row) (st st' : scan) :
  scan_candles bs st candles = Ret st' ->
  forall p, In p (map fst (vol_at_price st')) ->
            In p (map fst (vol_at_price st)) \/
            exists close, In close (closes candles) /\ p = bucket_of bs close.
Proof.
  revert candles st st'.
  apply (scan_candles_rect bs
           (fun st candles st' =>
              forall p, In p (map fst (vol_at_price st')) ->
                        In p (map fst (vol_at_price st)) \/
                        exists close, In close (closes candles)
                                      /\ p = bucket_of bs close)).
  - intros st p H. now left.
  - intros st r st1 rest st2 E1 _ IH p Hp.
    destruct (scan_candle_inv bs st st1 r E1)
      as [[Hc ->] | (c & close & -> & Hc & _ & ->)].
    + destruct (IH p Hp) as [H | (cl & Hin & Hcl)]; [now left |].
      right. exists cl. split; [| exact Hcl].
      simpl. rewrite Hc. exact Hin.
    + cbn [vol_at_price] in IH.
      destruct (IH p Hp) as [H | (cl & Hin & Hcl)].
      * apply dict_set_keys in H. destruct H as [H | ->]; [now left |].
        right. exists close. split; [| reflexivity].
        simpl. rewrite Hc. now left.
      * right. exists cl. split; [| exact Hcl].
        simpl. rewrite Hc. now right.
Qed.

Lemma bucket_of_near (bs close : Q) :
  ~ (bs == 0)%Q -> (Qabs (bucket_of bs close - close) <= Qabs bs / 2)%Q.
Proof.
  intro Hb. unfold bucket_of.
  set (y := (close / bs)%Q).
  assert (Hc : (close == y * bs)%Q) by (unfold y; field; exact Hb).
  destruct (round_within_half y) as [H1 H2].
  set (r := inject_Z (Py.round y)) in *.
  assert (Hhalf : (Qabs bs / 2 == Qabs bs * (1 # 2))%Q) by field.
  rewrite Hhalf.
  apply Qabs_case; intro Ha; apply Qabs_case; intro Hs;
    rewrite Hc in *; nra.
Qed.

Lemma build_profile_nonzero_width (candles : list row) (bs : Q)
  (mp : MarketProfile) :
  build_market_profile candles bs = Ret (Some mp) -> ~ (bs == 0)%Q.
Proof.
  intros Hb Hz.
  destruct (build_profile_inv candles bs mp Hb) as (st & b & E & Ht & _).
  pose proof (scan_zero_width bs candles scan_init st Hz E) as Hn.
  rewrite (scan_candles_null bs candles Hn scan_init) in E.
  inversion E; subst. simpl in Ht. lra.
Qed.

(** X7. With an integer bucket width [w] (such as the configured 10.0),
    each of POC, VAH and VAL of a returned profile is the bucket of the
    close of some row of the batch: an integer, multiple of [w], at most
    half of [w] away from that close. *)
Theorem profile_prices_are_buckets (candles : list row) (w : Z)
  (mp : MarketProfile) :
  build_market_profile candles (inject_Z w) = Ret (Some mp) ->
  forall p, p = poc mp \/ p = vah mp \/ p = val mp ->
    exists close k,
      In close (closes candles) /\
      p = bucket_of (inject_Z w) close /\ p = inject_Z (k * w) /\
      (Qabs (p - close) <= Qabs (inject_Z w) / 2)%Q.
Proof.
  intros Hb p Hp.
  pose proof (build_profile_nonzero_width candles _ mp Hb) as Hnz.
  destruct (build_profile_inv candles _ mp Hb)
    as (st & b & E & _ & Hmax & Hpoc & Hhi & Hlo).
  assert (Hkey : In p (map fst (vol_at_price st))).
  { assert (Hva : forall q, In q (map fst (value_area_of st)) ->
                            In q (map fst (vol_at_price st))).
    { intros q Hq. apply in_map_iff in Hq. destruct Hq as (x & <- & Hx).
      apply in_map. apply sorted_by_vol_in.
      destruct (value_area_prefix (total_vol st * (7 # 10))
                  (sorted_by_vol (vol_at_price st)) 0) as [rest Hr].
      fold (value_area_of st) in Hr. rewrite Hr.
      apply in_or_app. now left. }
    destruct Hp as [-> | [-> | ->]].
    - rewrite Hpoc. apply in_map. apply (max_by_spec _ snd _ _ Hmax).
    - apply Hva. apply (max_by_spec _ (fun q => q) _ _ Hhi).
    - apply Hva. apply (min_by_spec _ (fun q => q) _ _ Hlo). }
  destruct (scan_candles_keys _ candles scan_init st E p Hkey)
    as [[] | (close & Hin & ->)].
  exists close, (Py.round (close / inject_Z w)).
  split; [exact Hin |]. split; [reflexivity |]. split.
  - unfold bucket_of, Qmult, inject_Z. simpl. reflexivity.
  - now apply bucket_of_near.
Qed.

Lemma profile_prices_are_buckets_witness :
  let batch := [Full (mkCandle "09:15" None None None (Some 101) 5);
                Full (mkCandle "09:16" None None None (Some 118) 3)] in
  let mp := {| poc := 100; vah := 120; val := 100;
               high := None; low := None |} in
  build_market_profile batch (inject_Z 10) = Ret (Some mp) /\
  forall p, p = poc mp \/ p = vah mp \/ p = val mp ->
    exists close k,
      In close (closes batch) /\
      p = bucket_of (inject_Z 10) close /\ p = inject_Z (k * 10) /\
      (Qabs (p - close) <= Qabs (inject_Z 10) / 2)%Q.
Proof.
  cbv zeta. split; [reflexivity |].
  apply profile_prices_are_buckets. reflexivity.
Defined.

(** ** The point of control and the value area *)

Lemma fold_up_first {A : Type} (key : A -> Q) (rest : list A) :
  forall x,
    let m := fold_left (fun best y => if Py.Qltb (key best) (key y)
                                      then y else best) rest x in
    exists before after,
      x :: rest = before ++ m :: after /\
      (forall y, In y before -> (key y < key m)%Q) /\
      (forall y, In y after -> (key y <= key m)%Q).
Proof.
  induction rest as [| y r IH]; intro x; cbn [fold_left]; cbv zeta.
  - exists [], []. split; [reflexivity |]. split; intros z [].
  - destruct (fold_up_spec A key r
                (if Py.Qltb (key x) (key y) then y else x))
      as (_ & Hge & Hall).
    destruct (IH (if Py.Qltb (key x) (key y) then y else x))
      as (before & after & Hsplit & Hlt & Hle).
    cbv zeta in Hge, Hall, Hsplit, Hlt, Hle.
    set (m := fold_left _ r _) in *.
    destruct (Py.Qltb (key x) (key y)) eqn:E.
    + apply Qltb_lt in E.
      exists (x :: before), after. split; [| split].
      * simpl. now rewrite Hsplit.
      * intros z [<- | Hz]; [lra | now apply Hlt].
      * exact Hle.
    + apply Qltb_ge in E.
      destruct before as [| x' before].
      * simpl in Hsplit. inversion Hsplit as [[Hm Hr]].
        exists [], (y :: r). split; [| split].
        -- simpl. congruence.
        -- intros z [].
        -- intros z [<- | Hz]; [lra | now apply Hall].
      * simpl in Hsplit. inversion Hsplit as [[Hx Hr]]. subst x'.
        exists (x :: y :: before), after. split; [| split].
        -- simpl. congruence.
        -- intros z [<- | [<- | Hz]].
           ++ apply Hlt. now left.
           ++ assert (Hxm : (key x < key m)%Q) by (apply Hlt; now left). lra.
           ++ apply Hlt. now right.
        -- exact Hle.
Qed.

(** X8. The POC of a returned profile is a bucket of largest volume, and
    among the buckets of that volume the one met first: every bucket before
    it in the dictionary has strictly less volume, none has more. *)
Theorem poc_first_largest (candles : list row) (bs : Q) (mp : MarketProfile) :
  build_market_profile candles bs = Ret (Some mp) ->
  exists st v before after,
    scan_candles bs scan_init candles = Ret st /\
    vol_at_price st = before ++ (poc mp, v) :: after /\
    (forall b, In b before -> (snd b < v)%Q) /\
    (forall b, In b after -> (snd b <= v)%Q).
Proof.
  intro Hb.
  destruct (build_profile_inv candles bs mp Hb)
    as (st & b & E & _ & Hmax & Hpoc & _).
  destruct (vol_at_price st) as [| x d] eqn:Ev; [discriminate Hmax |].
  simpl in Hmax. inversion Hmax as [Hm]; clear Hmax.
  destruct (fold_up_first snd d x) as (before & after & Hsplit & Hlt & Hle).
  cbv zeta in Hsplit, Hlt, Hle. rewrite Hm in Hsplit, Hlt, Hle.
  exists st, (snd b), before, after.
  split; [exact E |]. split; [| now split].
  rewrite Hpoc, Ev, Hsplit. now destruct b.
Qed.

Lemma poc_first_largest_witness :
  let batch := [Full (mkCandle "09:15" None None None (Some 131) 2);
                Full (mkCandle "09:16" None None None (Some 101) 4);
                Full (mkCandle "09:17" None None None (Some 118) 4)] in
  let mp := {| poc := 100; vah := 120; val := 100;
               high := None; low := None |} in
  build_market_profile batch 10 = Ret (Some mp) /\
  exists st v before after,
    scan_candles 10 scan_init batch = Ret st /\
    vol_at_price st = before ++ (poc mp, v) :: after /\
    (forall b, In b before -> (snd b < v)%Q) /\
    (forall b, In b after -> (snd b <= v)%Q).
Proof.
  cbv zeta. split; [reflexivity |].
  apply poc_first_largest. reflexivity.
Defined.

Lemma sorted_app_order (l1 l2 : list (Q * Q)) :
  StronglySorted vol_ge (l1 ++ l2) ->
  forall a b, In a l1 -> In b l2 -> vol_ge a b.
Proof.
  induction l1 as [| x l1 IH]; simpl; intros H a b Ha Hb; [contradiction |].
  apply StronglySorted_inv in H. destruct H as [Hs Hx].
  destruct Ha as [<- | Ha].
  - rewrite Forall_forall in Hx. apply Hx. apply in_or_app. now right.
  - now apply IH.
Qed.

(** X9. In a returned profile no bucket left out of the value area has
    more volume than a bucket taken into it. *)
Theorem value_area_takes_largest (candles : list row) (bs : Q)
  (mp : MarketProfile) :
  build_market_profile candles bs = Ret (Some mp) ->
  exists st,
    scan_candles bs scan_init candles = Ret st /\
    forall b b',
      In b (value_area_of st) ->
      In b' (vol_at_price st) -> ~ In b' (value_area_of st) ->
      (snd b' <= snd b)%Q.
Proof.
  intro Hb.
  destruct (build_profile_inv candles bs mp Hb) as (st & _ & E & _).
  exists st. split; [exact E |]. intros b b' Hin Hin' Hout.
  destruct (value_area_prefix (total_vol st * (7 # 10))
              (sorted_by_vol (vol_at_price st)) 0) as [rest Hr].
  fold (value_area_of st) in Hr.
  pose proof (sorted_by_vol_sorted (vol_at_price st)) as Hs.
  rewrite Hr in Hs.
  apply (sorted_app_order _ _ Hs b b' Hin).
  apply sorted_by_vol_in in Hin'. rewrite Hr in Hin'.
  apply in_app_or in Hin'. destruct Hin' as [H | H]; [contradiction | exact H].
Qed.

Lemma value_area_takes_largest_witness :
  let batch := [Full (mkCandle "09:15" None None None (Some 131) 2);
                Full (mkCandle "09:16" None None None (Some 101) 4);
                Full (mkCandle "09:17" None None None (Some 118) 4)] in
  build_market_profile batch 10
  = Ret (Some {| poc := 100; vah := 120; val := 100;
                 high := None; low := None |}) /\
  exists st,
    scan_candles 10 scan_init batch = Ret st /\
    forall b b',
      In b (value_area_of st) ->
      In b' (vol_at_price st) -> ~ In b' (value_area_of st) ->
      (snd b' <= snd b)%Q.
Proof.
  cbv zeta. split; [reflexivity |].
  eapply value_area_takes_largest. reflexivity.
Defined.

(** X10. When one bucket alone holds at least 70% of the total volume, the
    value area of the returned profile is that bucket: VAH and VAL both
    equal the POC. *)
Theorem dominant_bucket_collapses (candles : list row) (bs : Q)
  (mp : MarketProfile) (st : scan) (b : Q * Q) :
  build_market_profile candles bs = Ret (Some mp) ->
  scan_candles bs scan_init candles = Ret st ->
  In b (vol_at_price st) ->
  ((7 # 10) * total_vol st <= snd b)%Q ->
  vah mp = poc mp /\ val mp = poc mp.
Proof.
  intros Hb Est Hin Hbig.
  destruct (build_profile_inv candles bs mp Hb)
    as (st' & b0 & E & _ & Hmax & Hpoc & Hhi & Hlo).
  rewrite Est in E. inversion E; subst st'; clear E.
  pose proof (proj2 (max_by_spec _ snd _ _ Hmax) b Hin) as Hge.
  assert (Hva : value_area_of st = [b0]).
  { unfold value_area_of.
    destruct (vol_at_price st) as [| x d] eqn:Ev; [discriminate Hmax |].
    assert (Hm : hd x (sorted_by_vol (x :: d)) = b0).
    { simpl in Hmax. injection Hmax as Hm'. rewrite <- Hm'. symmetry.
      apply first_max_is_sorted_head. }
    assert (Hx : In x (sorted_by_vol (x :: d)))
      by (apply sorted_by_vol_in; now left).
    destruct (sorted_by_vol (x :: d)) as [| h t]; [contradiction |].
    simpl in Hm. subst h. destruct b0 as [p v]. cbn [value_area]. cbv zeta.
    assert (Ht : Qle_bool (total_vol st * (7 # 10)) (0 + v) = true).
    { apply Qle_bool_iff. simpl in Hge. lra. }
    now rewrite Ht. }
  rewrite Hva in Hhi, Hlo. simpl in Hhi, Hlo.
  inversion Hhi. inversion Hlo. now rewrite Hpoc.
Qed.

Lemma dominant_bucket_collapses_witness :
  let batch := [Full (mkCandle "09:15" None None None (Some 131) 2);
                Full (mkCandle "09:16" None None None (Some 101) 7);
                Full (mkCandle "09:17" None None None (Some 118) 1)] in
  let mp := {| poc := 100; vah := 100; val := 100;
               high := None; low := None |} in
  let st := {| vol_at_price := [(130, 0 + 2); (100, 0 + 7); (120, 0 + 1)];
               total_vol := 0 + 2 + 7 + 1; d_high := None; d_low := None |} in
  build_market_profile batch 10 = Ret (Some mp) /\
  scan_candles 10 scan_init batch = Ret st /\
  In (100, 0 + 7) (vol_at_price st) /\
  ((7 # 10) * total_vol st <= snd (100, 0 + 7))%Q /\
  vah mp = poc mp /\ val mp = poc mp.
Proof.
  intros batch mp st.
  assert (Hin : In (100, 0 + 7)%Q (vol_at_price st))
    by (right; left; reflexivity).
  split; [reflexivity |]. split; [reflexivity |]. split; [exact Hin |].
  split; [intro H; discriminate H |].
  apply (dominant_bucket_collapses batch 10 mp st (100, 0 + 7)%Q).
  - reflexivity.
  - reflexivity.
  - exact Hin.
  - intro H. discriminate H.
Defined.

(** ** The centre of the window *)

Lemma argmin_seq_first (key : nat -> Z) (n : nat) :
  forall s b, (b < s)%nat ->
    let m := fold_left (fun best y => if (key y <? key best)%Z then y else best)
                       (seq s n) b in
    (key m <= key b)%Z /\
    (m = b \/ (s <= m < s + n)%nat) /\
    ((b < m)%nat -> (key m < key b)%Z) /\
    (forall j, (s <= j < s + n)%nat -> (j < m)%nat -> (key m < key j)%Z).
Proof.
  induction n as [| n IH]; intros s b Hb; cbn [seq fold_left]; cbv zeta.
  - repeat split; first [lia | now left].
  - assert (Hb' : ((if (key s <? key b)%Z then s else b) < S s)%nat)
      by (destruct (key s <? key b)%Z; lia).
    destruct (IH (S s) (if (key s <? key b)%Z then s else b) Hb')
      as (H1 & H2 & H3 & H4).
    set (m := fold_left _ (seq (S s) n) _) in *.
    destruct (key s <? key b)%Z eqn:E;
      [apply Z.ltb_lt in E | apply Z.ltb_ge in E].
    + repeat split.
      * lia.
      * destruct H2 as [-> | H2]; right; lia.
      * intros _. lia.
      * intros j Hj Hjm. destruct (Nat.eq_dec j s) as [-> | N].
        -- now apply H3.
        -- apply H4; lia.
    + repeat split.
      * exact H1.
      * destruct H2 as [-> | H2]; [now left | right; lia].
      * exact H3.
      * intros j Hj Hjm. destruct (Nat.eq_dec j s) as [-> | N].
        -- assert (Hm : (key m < key b)%Z) by (apply H3; lia). lia.
        -- apply H4; lia.
Qed.

Lemma atm_index_first (strikes : list Z) (atm : Z) :
  forall j, (j < atm_index strikes atm)%nat ->
            (Z.abs (nth (atm_index strikes atm) strikes 0 - atm)
             < Z.abs (nth j strikes 0 - atm))%Z.
Proof.
  unfold atm_index, Py.min_byZ.
  destruct strikes as [| s0 rest]; [intros j Hj; simpl in Hj; lia |].
  cbn [List.length seq].
  set (key := fun i : nat => Z.abs (nth i (s0 :: rest) 0%Z - atm)).
  destruct (argmin_seq_first key (List.length rest) 1 0 ltac:(lia))
    as (_ & Hr & H0 & Hall).
  set (m := fold_left _ _ _) in *.
  intros j Hj. destruct j as [| j].
  - apply H0. exact Hj.
  - apply (Hall (S j)); [| exact Hj]. destruct Hr as [E | Hr]; lia.
Qed.

Lemma sorted_nth_le (l : list Z) :
  StronglySorted Z.lt l ->
  forall i j, (i <= j)%nat -> (j < List.length l)%nat ->
              (nth i l 0 <= nth j l 0)%Z.
Proof.
  intros Hs i j Hij Hj.
  destruct (Nat.eq_dec i j) as [-> | N]; [lia |].
  pose proof (sorted_nth_lt l Hs i j ltac:(lia) Hj). lia.
Qed.

(** X11. When two available strikes are equally near the ATM value, the
    window is centred on the lower one: no available strike below the
    centre is as near as the centre. *)
Theorem atm_tie_goes_lower (contracts : list contract) (opt_type : string)
  (atm s : Z) :
  let strikes := available_strikes contracts opt_type in
  In s strikes ->
  Z.abs (s - atm) = Z.abs (centre_strike strikes atm - atm) ->
  (centre_strike strikes atm <= s)%Z.
Proof.
  intros strikes Hin Heq.
  pose proof (sorted_set_sorted
                (map strike_of (subset_of contracts opt_type))) as Hs.
  fold (available_strikes contracts opt_type) in Hs. fold strikes in Hs.
  destruct (In_nth _ _ 0%Z Hin) as (j & Hj & Hnth).
  unfold centre_strike in *.
  destruct (Nat.lt_ge_cases j (atm_index strikes atm)) as [L | G].
  - pose proof (atm_index_first strikes atm j L) as Hlt.
    rewrite Hnth in Hlt. lia.
  - rewrite <- Hnth. now apply sorted_nth_le.
Qed.

Lemma atm_tie_goes_lower_witness :
  let cs := [mkContract (Some "CE"%string) 24350 "NSE_FO|4" "NIFTY 24350 CE";
             mkContract (Some "CE"%string) 24300 "NSE_FO|1" "NIFTY 24300 CE"] in
  In 24350%Z (available_strikes cs "CE") /\
  Z.abs (24350 - 24325)
  = Z.abs (centre_strike (available_strikes cs "CE") 24325 - 24325) /\
  (centre_strike (available_strikes cs "CE") 24325 <= 24350)%Z.
Proof.
  intro cs.
  assert (Hin : In 24350%Z (available_strikes cs "CE"))
    by (right; left; reflexivity).
  assert (Heq : Z.abs (24350 - 24325)
                = Z.abs (centre_strike (available_strikes cs "CE") 24325 - 24325))
    by reflexivity.
  split; [exact Hin |]. split; [exact Heq |].
  exact (atm_tie_goes_lower cs "CE" 24325 24350 Hin Heq).
Defined.


Lemma centre_in_chosen (contracts : list contract) (opt_type : string)
  (atm n : Z) :
  (0 <= n)%Z ->
  available_strikes contracts opt_type <> [] ->
  In (centre_strike (available_strikes contracts opt_type) atm)
     (chosen_strikes contracts opt_type atm n).
Proof.
  intros Hn Hne. unfold chosen_strikes, centre_strike.
  destruct (available_strikes contracts opt_type) as [| s0 l] eqn:Es;
    [congruence |].
  destruct (window_segment (s0 :: l) atm n Hne Hn)
    as (Hw & Hlo & Hhi & Hmax & _).
  rewrite Hw.
  set (lo := Z.to_nat (Z.max 0 (Z.of_nat (atm_index (s0 :: l) atm) - n))) in *.
  set (hi := Z.to_nat (Z.min (Z.of_nat (List.length (s0 :: l)) - 1)
                             (Z.of_nat (atm_index (s0 :: l) atm) + n) + 1))
    in *.
  destruct (segment_props (s0 :: l) lo hi) as (_ & _ & Hin);
    [lia | exact Hmax |].
  apply Hin; lia.
Qed.



(** X13. Away from the edges, that is with at least [n] available strikes
    on each side of the centre, exactly [2n+1] strikes are chosen: the
    centre in the middle, [n] below and [n] above. *)
Theorem interior_window_full (contracts : list contract) (opt_type : string)
  (atm n : Z) :
  let strikes := available_strikes contracts opt_type in
  let idx := Z.of_nat (atm_index strikes atm) in
  (0 <= n)%Z -> (n <= idx)%Z ->
  (idx + n <= Z.of_nat (List.length strikes) - 1)%Z ->
  let chosen := chosen_strikes contracts opt_type atm n in
  chosen = firstn (Z.to_nat (2 * n + 1)) (skipn (Z.to_nat (idx - n)) strikes) /\
  Z.of_nat (List.length chosen) = (2 * n + 1)%Z /\
  nth (Z.to_nat n) chosen 0%Z = centre_strike strikes atm.
Proof.
  intros strikes idx Hn Hlo Hhi chosen.
  unfold chosen, chosen_strikes, centre_strike. fold strikes.
  destruct strikes as [| s0 l] eqn:Es.
  { exfalso. unfold idx in *. simpl in Hhi. lia. }
  assert (Hne : s0 :: l <> []) by discriminate.
  destruct (window_segment (s0 :: l) atm n Hne Hn) as (Hw & _).
  rewrite Hw. fold idx.
  replace (Z.to_nat (Z.min (Z.of_nat (List.length (s0 :: l)) - 1) (idx + n) + 1)
           - Z.to_nat (Z.max 0 (idx - n)))%nat
    with (Z.to_nat (2 * n + 1)) by lia.
  replace (Z.to_nat (Z.max 0 (idx - n))) with (Z.to_nat (idx - n)) by lia.
  split; [reflexivity |]. split.
  - rewrite length_firstn, length_skipn. lia.
  - rewrite nth_firstn.
    assert (Hb : (Z.to_nat n <? Z.to_nat (2 * n + 1))%nat = true)
      by (apply Nat.ltb_lt; lia).
    rewrite Hb, nth_skipn. f_equal. unfold idx. lia.
Qed.

Lemma interior_window_full_witness :
  let cs := [mkContract (Some "CE"%string) 24300 "NSE_FO|1" "NIFTY 24300 CE";
             mkContract (Some "CE"%string) 24400 "NSE_FO|3" "NIFTY 24400 CE";
             mkContract (Some "CE"%string) 24350 "NSE_FO|4" "NIFTY 24350 CE";
             mkContract (Some "CE"%string) 24250 "NSE_FO|5" "NIFTY 24250 CE";
             mkContract (Some "CE"%string) 24450 "NSE_FO|6" "NIFTY 24450 CE"] in
  let strikes := available_strikes cs "CE" in
  let idx := Z.of_nat (atm_index strikes 24350) in
  (0 <= 1)%Z /\ (1 <= idx)%Z /\
  (idx + 1 <= Z.of_nat (List.length strikes) - 1)%Z /\
  let chosen := chosen_strikes cs "CE" 24350 1 in
  chosen = firstn (Z.to_nat (2 * 1 + 1)) (skipn (Z.to_nat (idx - 1)) strikes) /\
  Z.of_nat (List.length chosen) = (2 * 1 + 1)%Z /\
  nth (Z.to_nat 1) chosen 0%Z = centre_strike strikes 24350.
Proof.
  intros cs strikes idx.
  assert (H1 : (1 <= idx)%Z) by (vm_compute; discriminate).
  assert (H2 : (idx + 1 <= Z.of_nat (List.length strikes) - 1)%Z)
    by (vm_compute; discriminate).
  split; [lia |]. split; [exact H1 |]. split; [exact H2 |].
  apply (interior_window_full cs "CE" 24350 1); [lia | exact H1 | exact H2].
Defined.

(** ** Which contracts matter *)

Lemma filter_filter_implied {A : Type} (f g : A -> bool) (l : list A) :
  (forall x, f x = true -> g x = true) ->
  filter f (filter g l) = filter f l.
Proof.
  intro H. induction l as [| x l IH]; simpl; trivial.
  destruct (g x) eqn:Eg; simpl.
  - now rewrite IH.
  - destruct (f x) eqn:Ef; [| exact IH].
    apply H in Ef. congruence.
Qed.

Lemma pick_for_type_subset (cs cs' : list contract) (atm n : Z)
  (opt_type : string) :
  subset_of cs opt_type = subset_of cs' opt_type ->
  pick_for_type cs atm n opt_type = pick_for_type cs' atm n opt_type.
Proof.
  intro H. unfold pick_for_type, chosen_strikes, available_strikes.
  now rewrite H.
Qed.

(** X14. The pairs appended for an option type depend on the contracts of
    that type alone: contracts of another type or of none have no influence
    on them, so the pairs for "CE" and for "PE" are those of the list
    without the contracts that are neither calls nor puts. *)
Theorem other_contracts_ignored (contracts : list contract) (atm n : Z) :
  (forall opt_type,
      pick_for_type (filter (has_type opt_type) contracts) atm n opt_type
      = pick_for_type contracts atm n opt_type) /\
  pick_for_type (filter call_or_put contracts) atm n "CE"
  = pick_for_type contracts atm n "CE" /\
  pick_for_type (filter call_or_put contracts) atm n "PE"
  = pick_for_type contracts atm n "PE".
Proof.
  split; [| split].
  - intro ty. apply pick_for_type_subset. unfold subset_of.
    apply filter_filter_implied. trivial.
  - apply pick_for_type_subset. unfold subset_of.
    apply filter_filter_implied. intros c Hc. unfold call_or_put.
    now rewrite Hc.
  - apply pick_for_type_subset. unfold subset_of.
    apply filter_filter_implied. intros c Hc. unfold call_or_put.
    rewrite Hc. apply orb_true_r.
Qed.

Lemma find_filter_first {A : Type} (f g : A -> bool) (l : list A) (c : A) :
  find f (filter g l) = Some c ->
  exists before after,
    l = before ++ c :: after /\ g c = true /\ f c = true /\
    forall c', In c' before -> ~ (g c' = true /\ f c' = true).
Proof.
  induction l as [| a l IH]; simpl; [discriminate |].
  destruct (g a) eqn:Eg; simpl.
  - destruct (f a) eqn:Ef.
    + intros [= <-]. exists [], l. repeat split; trivial. intros c' [].
    + intro H. destruct (IH H) as (before & after & -> & Hg & Hf & Hall).
      exists (a :: before), after. repeat split; trivial.
      intros c' [<- | Hc']; [intros [_ E]; congruence | now apply Hall].
  - intro H. destruct (IH H) as (before & after & -> & Hg & Hf & Hall).
    exists (a :: before), after. repeat split; trivial.
    intros c' [<- | Hc']; [intros [E _]; congruence | now apply Hall].
Qed.

(** X15. When several contracts of a type have the same strike, the pair
    in the result is that of the first of them in the contract list: one
    pair per chosen strike, in the order of the strikes. *)
Theorem first_contract_per_strike (contracts : list contract)
  (opt_type : string) (atm n : Z) :
  Forall2 (fun s p => exists c, first_of contracts opt_type s c /\
                                p = (instrument_key c, trading_symbol c))
          (chosen_strikes contracts opt_type atm n)
          (pick_for_type contracts atm n opt_type).
Proof.
  pose proof (pick_for_type_pairs contracts atm n opt_type) as Hpairs.
  unfold pick_for_type in *.
  destruct (subset_of contracts opt_type) as [| c0 sub] eqn:Esub.
  - inversion Hpairs. constructor.
  - rewrite <- Esub in *. clear Esub.
    induction (chosen_strikes contracts opt_type atm n) as [| s l IH].
    + constructor.
    + cbn [flat_map] in *. unfold first_match in Hpairs at 1 |- * at 1.
      unfold subset_of in Hpairs at 1 |- * at 1.
      destruct (find (fun c => (strike_of c =? s)%Z)
                     (filter (has_type opt_type) contracts))
        as [c |] eqn:Ef.
      * cbn [app] in *. inversion Hpairs as [| ? ? ? ? _ Hrest]; subst.
        constructor; [| now apply IH].
        destruct (find_filter_first _ _ _ _ Ef)
          as (before & after & Hsplit & Hg & Hf & Hall).
        exists c. split; [| reflexivity].
        exists before, after. repeat split; trivial.
        -- now apply has_type_iff.
        -- now apply Z.eqb_eq.
        -- intros c' Hc' [Ht Hs]. apply (Hall c' Hc'). split.
           ++ now apply has_type_iff.
           ++ now apply Z.eqb_eq.
      * cbn [app] in Hpairs. exfalso.
        apply Forall2_length in Hpairs. 
        assert (Hle : (List.length
                         (flat_map (first_match (subset_of contracts opt_type)) l)
                       <= List.length l)%nat).
        { clear. induction l as [| a l IHl]; simpl; [lia |].
          rewrite length_app. unfold first_match at 1.
          destruct (find _ _); simpl; lia. }
        simpl in Hpairs. lia.
Qed.

Lemma subset_empty_iff (contracts : list contract) (opt_type : string) :
  subset_of contracts opt_type = [] <->
  forall c, In c contracts -> has_type opt_type c = false.
Proof.
  unfold subset_of. split.
  - intros H c Hc. destruct (has_type opt_type c) eqn:E; trivial.
    assert (Hin : In c (filter (has_type opt_type) contracts))
      by (apply filter_In; now split).
    now rewrite H in Hin.
  - intro H. induction contracts as [| a l IH]; simpl; trivial.
    rewrite (H a (or_introl eq_refl)). apply IH.
    intros c Hc. apply H. now right.
Qed.

Lemma pick_for_type_empty_iff (contracts : list contract)
  (opt_type : string) (atm n : Z) :
  (0 <= n)%Z ->
  pick_for_type contracts atm n opt_type = [] <->
  subset_of contracts opt_type = [].
Proof.
  intro Hn. split.
  - intro H.
    destruct (subset_of contracts opt_type) as [| c0 sub] eqn:Esub; trivial.
    exfalso.
    assert (Hne : available_strikes contracts opt_type <> []).
    { intro E.
      assert (Hin : In (strike_of c0) (available_strikes contracts opt_type)).
      { unfold available_strikes. apply sorted_set_in. apply in_map.
        rewrite Esub. now left. }
      now rewrite E in Hin. }
    pose proof (centre_in_chosen contracts opt_type atm n Hn Hne) as Hc.
    pose proof (pick_for_type_pairs contracts atm n opt_type) as Hp.
    rewrite H in Hp. inversion Hp as [E1 E2 |]. now rewrite <- E1 in Hc.
  - intro H. unfold pick_for_type. now rewrite H.
Qed.

(** X16. For a count [n >= 0] the loops append no pair for an option type
    exactly when the list has no contract of that type; as soon as the type
    has a contract, it has a pair. *)
Theorem selection_empty_iff (contracts : list contract) (opt_type : string)
  (atm n : Z) :
  (0 <= n)%Z ->
  (pick_for_type contracts atm n opt_type = [] <->
   forall c, In c contracts -> has_type opt_type c = false).
Proof.
  intro Hn.
  rewrite (pick_for_type_empty_iff contracts opt_type atm n Hn).
  apply subset_empty_iff.
Qed.

Lemma selection_empty_iff_witness :
  let cs := [mkContract (Some "FUT"%string) 0 "NSE_FO|7" "NIFTY FUT";
             mkContract (Some "PE"%string) 24300 "NSE_FO|8" "NIFTY 24300 PE"] in
  (0 <= 3)%Z /\
  pick_for_type cs 24350 3 "CE" = [] /\
  (pick_for_type cs 24350 3 "CE" = [] <->
   forall c, In c cs -> has_type "CE" c = false).
Proof.
  intro cs. split; [lia |]. split; [reflexivity |].
  apply selection_empty_iff. lia.
Defined.

(** ** Quotes: keys and shapes *)

Lemma dict_set_str_keys {V : Type} (d : list (string * V)) (k : string)
  (v : V) :
  (forall k', In k' (map fst (dict_set String.eqb d k v)) ->
              In k' (map fst d) \/ k' = k) /\
  (NoDup (map fst d) -> NoDup (map fst (dict_set String.eqb d k v))).
Proof.
  induction d as [| [a w] d [IH1 IH2]]; simpl.
  - split.
    + intros k' [<- | []]. now right.
    + intros _. constructor; [intros [] | constructor].
  - destruct (String.eqb a k) eqn:E; simpl.
    + split; [intros k' H; now left | trivial].
    + split.
      * intros k' [<- | H]; [left; now left |].
        destruct (IH1 k' H) as [H' | ->]; [left; now right | now right].
      * intro Hnd. apply NoDup_cons_iff in Hnd. destruct Hnd as [Ha Hnd].
        constructor; [| now apply IH2].
        intro Hin. destruct (IH1 a Hin) as [H' | ->]; [contradiction |].
        now rewrite String.eqb_refl in E.
Qed.

Section QuoteKeys.

Variable float_of_str : string -> option Q.

Lemma quote_entry_inv (out out' : list (string * (Q * Q))) (key : string)
  (q : json) :
  quote_entry float_of_str out key q = Ret out' ->
  out' = out \/ exists pv, out' = dict_set String.eqb out key pv.
Proof.
  unfold quote_entry.
  destruct (py_get q "last_price" JNull) as [ltp0 | e]; cbn [bind];
    [| discriminate].
  destruct (if is_none ltp0
            then ohlc0 <- py_get q "ohlc" JNull;;
                 py_get (py_or ohlc0 (JObj [])) "close" JNull
            else Ret ltp0) as [ltp | e]; cbn [bind]; [| discriminate].
  destruct (py_get q "volume" (JNum 0)) as [vol | e]; cbn [bind];
    [| discriminate].
  destruct (is_none ltp).
  - intros [= <-]. now left.
  - destruct (py_float float_of_str ltp) as [p | e]; cbn [bind];
      [| discriminate].
    destruct (py_float float_of_str (py_or vol (JNum 0))) as [v | e];
      cbn [bind]; [| discriminate].
    intros [= <-]. right. now exists (p, v).
Qed.

Lemma quote_entries_keys (items : list (string * json)) :
  forall out out',
    quote_entries float_of_str out items = Ret out' ->
    (forall k, In k (map fst out') ->
               In k (map fst out) \/ In k (map fst items)) /\
    (NoDup (map fst out) -> NoDup (map fst out')).
Proof.
  induction items as [| [key q] rest IH]; intros out out' E; simpl in E.
  - inversion E; subst. split; [intros k H; now left | trivial].
  - destruct (quote_entry float_of_str out key q) as [out1 | e] eqn:E1;
      cbn [bind] in E; [| discriminate].
    destruct (IH out1 out' E) as [K N].
    assert (K1 : forall k, In k (map fst out1) ->
                           In k (map fst out) \/ k = key).
    { destruct (quote_entry_inv out out1 key q E1) as [-> | [pv ->]].
      - intros k H. now left.
      - apply dict_set_str_keys. }
    assert (N1 : NoDup (map fst out) -> NoDup (map fst out1)).
    { destruct (quote_entry_inv out out1 key q E1) as [-> | [pv ->]];
        [trivial | apply dict_set_str_keys]. }
    split.
    + intros k Hk. destruct (K k Hk) as [H | H].
      * destruct (K1 k H) as [H' | ->]; [now left | right; now left].
      * right. now right.
    + intro Hnd. apply N, N1, Hnd.
Qed.

(** X17. Whatever the shape of the entries, when [fetch_quotes] returns a
    mapping, each of its keys is a key of the response's [data] (so an
    identifier the upstream does not report is absent, whether or not it
    was asked for), and no key occurs twice. *)
Theorem quotes_only_reported_keys (upstream : string -> reply)
  (instrument_keys : list string) (out : list (string * (Q * Q))) :
  fetch_quotes float_of_str upstream instrument_keys = Ret out ->
  NoDup (map fst out) /\
  forall key, In key (map fst out) ->
    exists top items,
      upstream (String.concat "," instrument_keys) = Body (JObj top) /\
      dict_get_default String.eqb top "data"%string (JObj []) = JObj items /\
      In key (map fst items).
Proof.
  unfold fetch_quotes.
  destruct instrument_keys as [| k ks] eqn:Ek.
  { intros [= <-]. split; [constructor | intros key []]. }
  rewrite <- Ek. clear Ek.
  destruct (upstream (String.concat "," instrument_keys)) as [| js].
  { intros [= <-]. split; [constructor | intros key []]. }
  destruct js as [| | | | | top]; try discriminate.
  cbn [py_get bind].
  destruct (not_success (dict_get_default String.eqb top "status"%string JNull)).
  { intros [= <-]. split; [constructor | intros key []]. }
  destruct (dict_get_default String.eqb top "data"%string (JObj []))
    as [| | | | | items] eqn:Ed; try discriminate.
  cbn [py_items bind]. intro E.
  destruct (quote_entries_keys items [] out E) as [K N].
  split; [apply N; constructor |].
  intros key Hk. exists top, items. repeat split; trivial.
  destruct (K key Hk) as [[] | H]. exact H.
Qed.

Lemma quote_entries_app (l1 l2 : list (string * json)) :
  forall out,
    quote_entries float_of_str out (l1 ++ l2)
    = (out1 <- quote_entries float_of_str out l1 ;;
       quote_entries float_of_str out1 l2).
Proof.
  induction l1 as [| [k q] l1 IH]; intro out; simpl; trivial.
  destruct (quote_entry float_of_str out k q) as [o | e]; simpl; trivial.
Qed.

Lemma quote_entries_total (items : list (string * json)) :
  Forall (fun e => entry_ok (snd e) = true) items ->
  forall out, exists out', quote_entries float_of_str out items = Ret out'.
Proof.
  induction 1 as [| [k q] rest Hq _ IH]; intro out; simpl.
  - now exists out.
  - rewrite (quote_entry_ok float_of_str out k q Hq). cbn [bind]. apply IH.
Qed.

(** X18. [fetch_quotes] raises [AttributeError] to its caller when the
    decoded body is not an object, when a successful response carries a
    [data] that is not an object, and when an entry of [data] is not an
    object while the entries before it are well shaped: the quotes of the
    other entries are lost with it. *)
Theorem fetch_quotes_shape_errors (upstream : string -> reply)
  (instrument_keys : list string) (js : json) :
  instrument_keys <> [] ->
  upstream (String.concat "," instrument_keys) = Body js ->
  is_object js = false \/
  (exists top,
      js = JObj top /\
      dict_get_default String.eqb top "status"%string JNull
      = JStr "success" /\
      (is_object (dict_get_default String.eqb top "data"%string (JObj []))
       = false \/
       exists good key q rest,
         dict_get_default String.eqb top "data"%string (JObj [])
         = JObj (good ++ (key, q) :: rest) /\
         Forall (fun e => entry_ok (snd e) = true) good /\
         is_object q = false)) ->
  fetch_quotes float_of_str upstream instrument_keys = Raise AttributeError.
Proof.
  intros Hne Hup H. unfold fetch_quotes.
  destruct instrument_keys as [| k ks] eqn:Ek; [congruence |].
  rewrite <- Ek in *. clear Ek. rewrite Hup.
  destruct H as [Hobj | (top & -> & Hst & Hdata)].
  - destruct js; try reflexivity. discriminate Hobj.
  - cbn [py_get bind]. rewrite Hst. cbn [not_success].
    rewrite String.eqb_refl. cbn [negb].
    destruct Hdata as [Hobj | (good & key & q & rest & -> & Hgood & Hq)].
    + destruct (dict_get_default String.eqb top "data"%string (JObj []));
        try reflexivity. discriminate Hobj.
    + cbn [py_items bind]. rewrite quote_entries_app.
      destruct (quote_entries_total good Hgood []) as [out1 ->].
      cbn [bind quote_entries].
      destruct q; try reflexivity. discriminate Hq.
Qed.

End QuoteKeys.

Lemma quotes_only_reported_keys_witness :
  let body := JObj [("status", JStr "success");
                    ("data", JObj [("NSE_FO|1", JObj [("last_price", JNum 5)]);
                                   ("NSE_FO|2", JObj [])])]%string in
  let out := [("NSE_FO|1"%string, (5, 0))]%Q in
  fetch_quotes (fun _ => None) (fun _ => Body body)
    ["NSE_FO|1"; "NSE_FO|2"; "NSE_FO|3"]%string = Ret out /\
  NoDup (map fst out) /\
  forall key, In key (map fst out) ->
    exists top items,
      Body body = Body (JObj top) /\
      dict_get_default String.eqb top "data"%string (JObj []) = JObj items /\
      In key (map fst items).
Proof.
  intros body out. split; [reflexivity |].
  apply (quotes_only_reported_keys (fun _ => None) (fun _ => Body body)
           ["NSE_FO|1"; "NSE_FO|2"; "NSE_FO|3"]%string out).
  reflexivity.
Defined.

Lemma fetch_quotes_shape_errors_witness :
  let keys := ["NSE_FO|1"; "NSE_FO|2"]%string in
  let body := JObj [("status", JStr "success");
                    ("data", JObj [("NSE_FO|1", JObj [("last_price", JNum 5)]);
                                   ("NSE_FO|2", JNull)])]%string in
  fetch_quotes (fun _ => None) (fun _ => Body (JArr [])) keys
  = Raise AttributeError /\
  fetch_quotes (fun _ => None)
    (fun _ => Body (JObj [("status", JStr "success"); ("data", JNull)]%string))
    keys
  = Raise AttributeError /\
  fetch_quotes (fun _ => None) (fun _ => Body body) keys
  = Raise AttributeError.
Proof.
  intros keys body. split; [| split].
  - apply (fetch_quotes_shape_errors _ _ _ (JArr []));
      [discriminate | reflexivity | left; reflexivity].
  - eapply fetch_quotes_shape_errors;
      [discriminate | reflexivity |].
    right. eexists. split; [reflexivity |]. split; [reflexivity |].
    left. reflexivity.
  - eapply fetch_quotes_shape_errors;
      [discriminate | reflexivity |].
    right. eexists. split; [reflexivity |]. split; [reflexivity |].
    right.
    exists [("NSE_FO|1"%string, JObj [("last_price"%string, JNum 5)])],
           "NSE_FO|2"%string, JNull, [].
    split; [reflexivity |]. split; [| reflexivity].
    repeat constructor.
Defined.

(** ** Candle and contract requests *)

Lemma success_status (j : json) :
  not_success j = false <-> j = JStr "success"%string.
Proof.
  split.
  - intro H. destruct (not_success j) eqn:E; [discriminate |].
    destruct j; try discriminate E. simpl in E.
    apply negb_false_iff, String.eqb_eq in E. now subst.
  - intros ->. reflexivity.
Qed.

Lemma dict_get_default_some (fields : list (string * json)) (k : string)
  (d v : json) :
  dict_get String.eqb fields k = Some v ->
  dict_get_default String.eqb fields k d = v.
Proof. unfold dict_get_default. now intros ->. Qed.

Lemma dict_get_default_is (fields : list (string * json)) (k : string)
  (v : json) :
  dict_get_default String.eqb fields k JNull = v -> v <> JNull ->
  dict_get String.eqb fields k = Some v.
Proof.
  unfold dict_get_default.
  destruct (dict_get String.eqb fields k) as [w |]; intros <- H;
    [reflexivity | congruence].
Qed.

(** X19. [fetch_intraday_candles] never raises: it returns the [candles] of
    the response's [data] when the body is an object with status "success"
    whose [data] is an object with that key, and the empty list in every
    other case (transport or decoding failure, a body that is not an
    object, another status, a missing or malformed [data]). *)
Theorem candles_only_from_success (upstream : string -> reply)
  (instrument_key interval : string) (c : json) :
  c <> JArr [] ->
  (fetch_intraday_candles upstream instrument_key interval = c <->
   exists top data,
     upstream (BASE_URL ++ "/historical-candle/intraday/" ++ instrument_key
               ++ "/" ++ interval)%string = Body (JObj top) /\
     dict_get String.eqb top "status"%string = Some (JStr "success") /\
     dict_get String.eqb top "data"%string = Some (JObj data) /\
     dict_get String.eqb data "candles"%string = Some c).
Proof.
  intro Hc. unfold fetch_intraday_candles. cbv zeta.
  destruct (upstream _) as [| js].
  { split; [congruence | intros (top & data & E & _); discriminate E]. }
  destruct js as [| | | | | top];
    try (split; [cbn; congruence | intros (t & d & E & _); discriminate E]).
  cbn [py_get py_index].
  destruct (not_success (dict_get_default String.eqb top "status"%string JNull))
    eqn:Es.
  - split; [congruence |].
    intros (t & d & E & Hst & _). inversion E; subst t.
    rewrite (dict_get_default_some _ _ JNull _ Hst) in Es. discriminate Es.
  - apply success_status in Es.
    assert (Hst : dict_get String.eqb top "status"%string
                  = Some (JStr "success"))
      by (apply dict_get_default_is; [exact Es | discriminate]).
    destruct (dict_get String.eqb top "data"%string) as [data |] eqn:Ed.
    + destruct data as [| | | | | fields];
        try (split; [cbn; congruence
                    | intros (t & d & E & _ & Hd & _); inversion E; subst t;
                      rewrite Ed in Hd; discriminate Hd]).
      cbn [py_index].
      destruct (dict_get String.eqb fields "candles"%string) as [cs |] eqn:Ec.
      * split.
        -- intros <-. now exists top, fields.
        -- intros (t & d & E & _ & Hd & Hcs). inversion E; subst t.
           rewrite Ed in Hd. inversion Hd; subst d. congruence.
      * split; [congruence |].
        intros (t & d & E & _ & Hd & Hcs). inversion E; subst t.
        rewrite Ed in Hd. inversion Hd; subst d. congruence.
    + split; [congruence |].
      intros (t & d & E & _ & Hd & _). inversion E; subst t. congruence.
Qed.

Lemma candles_only_from_success_witness :
  let row := JArr [JStr "2025-11-20T09:15:00+05:30"; JNum 26000; JNum 26010;
                   JNum 25990; JNum 26005; JNum 1200] in
  let body := JObj [("status", JStr "success");
                    ("data", JObj [("candles", JArr [row])])]%string in
  JArr [row] <> JArr [] /\
  (fetch_intraday_candles (fun _ => Body body) "NSE_INDEX|Nifty 50" "1minute"
   = JArr [row] <->
   exists top data,
     Body body = Body (JObj top) /\
     dict_get String.eqb top "status"%string = Some (JStr "success") /\
     dict_get String.eqb top "data"%string = Some (JObj data) /\
     dict_get String.eqb data "candles"%string = Some (JArr [row])).
Proof.
  intros row body.
  assert (H : JArr [row] <> JArr []) by discriminate.
  split; [exact H |].
  exact (candles_only_from_success (fun _ => Body body)
           "NSE_INDEX|Nifty 50" "1minute" (JArr [row]) H).
Defined.

(** X20. [get_option_contracts] never raises: it returns the response's
    [data] when the body is an object with status "success" that has the
    key, and the empty list in every other case. *)
Theorem contracts_only_from_success (upstream : string -> string -> reply)
  (underlying_key expiry_date : string) (c : json) :
  c <> JArr [] ->
  (get_option_contracts upstream underlying_key expiry_date = c <->
   exists top,
     upstream underlying_key expiry_date = Body (JObj top) /\
     dict_get String.eqb top "status"%string = Some (JStr "success") /\
     dict_get String.eqb top "data"%string = Some c).
Proof.
  intro Hc. unfold get_option_contracts.
  destruct (upstream underlying_key expiry_date) as [| js].
  { split; [congruence | intros (top & E & _); discriminate E]. }
  destruct js as [| | | | | top];
    try (split; [cbn; congruence | intros (t & E & _); discriminate E]).
  cbn [py_get py_index].
  destruct (not_success (dict_get_default String.eqb top "status"%string JNull))
    eqn:Es.
  - split; [congruence |].
    intros (t & E & Hst & _). inversion E; subst t.
    rewrite (dict_get_default_some _ _ JNull _ Hst) in Es. discriminate Es.
  - apply success_status in Es.
    assert (Hst : dict_get String.eqb top "status"%string
                  = Some (JStr "success"))
      by (apply dict_get_default_is; [exact Es | discriminate]).
    destruct (dict_get String.eqb top "data"%string) as [data |] eqn:Ed.
    + split.
      * intros <-. now exists top.
      * intros (t & E & _ & Hd). inversion E; subst t. congruence.
    + split; [congruence |].
      intros (t & E & _ & Hd). inversion E; subst t. congruence.
Qed.

Lemma contracts_only_from_success_witness :
  let data := JArr [JObj [("instrument_type", JStr "CE");
                          ("strike_price", JNum 26000);
                          ("instrument_key", JStr "NSE_FO|1");
                          ("trading_symbol", JStr "NIFTY 26000 CE")]%string] in
  let body := JObj [("status", JStr "success"); ("data", data)]%string in
  data <> JArr [] /\
  (get_option_contracts (fun _ _ => Body body) "NSE_INDEX|Nifty 50" "2025-11-25"
   = data <->
   exists top,
     Body body = Body (JObj top) /\
     dict_get String.eqb top "status"%string = Some (JStr "success") /\
     dict_get String.eqb top "data"%string = Some data).
Proof.
  intros data body.
  assert (H : data <> JArr []) by discriminate.
  split; [exact H |].
  exact (contracts_only_from_success (fun _ _ => Body body)
           "NSE_INDEX|Nifty 50" "2025-11-25" data H).
Defined.

(** ** Rows of more than six fields *)

(** X21. A batch that holds a row of more than six fields never yields a
    result: the unpacking of that row raises [ValueError], unless an
    earlier row has already raised. *)
Theorem long_row_never_returns (candles : list row) (bs : Q) (c : candle) :
  In (Long c) candles ->
  exists e, build_market_profile candles bs = Raise e.
Proof.
  intro Hin. unfold build_market_profile.
  destruct candles as [| r rest] eqn:Ec; [contradiction |].
  rewrite <- Ec in *. clear Ec.
  destruct (scan_candles bs scan_init candles) as [st | e] eqn:E.
  - exfalso.
    pose proof (scan_candles_fit bs candles scan_init st E) as Hfit.
    rewrite Forall_forall in Hfit. specialize (Hfit _ Hin).
    discriminate Hfit.
  - exists e. reflexivity.
Qed.

Lemma long_row_never_returns_witness :
  let c := mkCandle "09:16" (Some 99) (Some 104) (Some 98) (Some 101) 5 in
  let batch := [Full (mkCandle "09:15" None None None (Some 118) 3); Long c] in
  In (Long c) batch /\
  build_market_profile batch 10 = Raise ValueError /\
  exists e, build_market_profile batch 10 = Raise e.
Proof.
  intros c batch.
  assert (Hin : In (Long c) batch) by (right; left; reflexivity).
  split; [exact Hin |]. split; [reflexivity |].
  exact (long_row_never_returns batch 10 c Hin).
Defined.
